(** * The cluster registry of Lens (ClusterStore)

    A shallow embedding of [ClusterStore] (src/common/cluster-store.ts, the
    second document of src/src/common/utils/index.ts) and of [noop]
    (src/common/utils/index.ts), with the properties of the registry
    operations: [setActive], [addCluster], [removeById], [fromStore],
    [toJSON], [embedCustomKubeConfig] and the state listeners.

    Cluster objects are mutable and shared between the maps of the store, so
    they live in a heap ([objects]) and the maps hold references to them.
    The two observable maps are JavaScript [Map]s: association lists in
    insertion order. *)

From stdpp Require Import base decidable option list strings gmap.
From Stdlib Require Import ZArith Ascii.

Local Open Scope string_scope.
Local Open Scope list_scope.

(** ** JavaScript [Map] over string keys

    Entries in insertion order. [set] on a key that is present replaces the
    value where it stands, on a new key it appends. *)
Module JsMap.
Section ops.
Context {V : Type}.

Fixpoint get (k : string) (m : list (string * V)) : option V :=
  match m with
  | [] => None
  | (k', v) :: m' => if decide (k' = k) then Some v else get k m'
  end.

Definition has (k : string) (m : list (string * V)) : bool :=
  match get k m with Some _ => true | None => false end.

Fixpoint set (k : string) (v : V) (m : list (string * V)) : list (string * V) :=
  match m with
  | [] => [(k, v)]
  | (k', v') :: m' =>
      if decide (k' = k) then (k, v) :: m' else (k', v') :: set k v m'
  end.

Fixpoint delete (k : string) (m : list (string * V)) : list (string * V) :=
  match m with
  | [] => []
  | (k', v') :: m' =>
      if decide (k' = k) then delete k m' else (k', v') :: delete k m'
  end.

Definition keys (m : list (string * V)) : list string := m.*1.
Definition values (m : list (string * V)) : list V := m.*2.
Definition size (m : list (string * V)) : nat := length m.
End ops.
End JsMap.

(** ** Data model (src/common/cluster-store.ts) *)

Abbreviation ClusterId := string (only parsing).

Inductive MetaValue :=
  | MetaString (s : string)
  | MetaNumber (n : Z)
  | MetaBoolean (b : bool)
  | MetaObject (json : string).

Abbreviation ClusterMetadata := (list (string * MetaValue)) (only parsing).

Record PrometheusService := {
  prom_namespace : string;
  prom_service : string;
  prom_port : Z;
  prom_prefix : string;
}.

Record ClusterPreferences := {
  terminalCWD : option string;
  clusterName : option string;
  iconOrder : option Z;
  icon : option string;
  httpsProxy : option string;
  hiddenMetrics : option (list string);
  prometheus : option PrometheusService;
  prometheusProvider : option string;
}.

Record ClusterModel := {
  id : ClusterId;
  kubeConfigPath : string;
  workspace : option string;
  contextName : option string;
  preferences : option ClusterPreferences;
  metadata : option ClusterMetadata;
  ownerRef : option string;
  accessibleNamespaces : option (list string);
  kubeConfig : option string;
}.

Record ClusterStoreModel := {
  sm_activeCluster : option ClusterId;
  sm_clusters : option (list ClusterModel);
}.

(** ** The Cluster class (src/main/cluster.ts) *)

Inductive ConnectionPhase := Disconnected | Connecting | Connected.

Inductive ClusterError :=
  | InvalidConfig
  | UnsupportedAuthMethod
  | ConnectionFailed
  | NoPortAvailable.

(** Modelled from the spec: the ClusterState interface of src/main/cluster.ts
    is missing; section 3 gives the connection state of a cluster as the
    phase, the accessible and online flags, the version, the distribution
    and the last error. *)
Record ClusterState := {
  phase : ConnectionPhase;
  online : bool;
  accessible : bool;
  version : option string;
  distribution : option string;
  lastError : option ClusterError;
}.

(** Modelled from the spec: the fields of the Cluster class, which is
    missing. The persisted attributes are those of [ClusterModel]; the
    enabled flag, the API server URL and the connection state are kept in
    memory only. *)
Record Cluster := {
  model : ClusterModel;
  enabled : bool;
  apiUrl : option string;
  state : ClusterState;
}.

Definition set_enabled (b : bool) (c : Cluster) : Cluster :=
  {| model := model c; enabled := b; apiUrl := apiUrl c; state := state c |}.

(** JavaScript truthiness of an optional string. *)
Definition truthy (o : option string) : bool :=
  match o with
  | Some s => negb (bool_decide (s = ""))
  | None => false
  end.

(** Modelled from the spec: [Cluster.isManaged] is missing; a cluster is
    owner-managed when its owner-reference is set, that is present and not
    the empty string. *)
Definition isManaged (c : Cluster) : bool := truthy (ownerRef (model c)).

(** Modelled from the spec: [Cluster.disconnected] is missing. *)
Definition disconnected (c : Cluster) : bool :=
  match phase (state c) with Disconnected => true | _ => false end.

(** Modelled from the spec: [Cluster.setState] and [Cluster.getState] are
    missing; they write and read the connection state snapshot. *)
Definition setState (st : ClusterState) (c : Cluster) : Cluster :=
  {| model := model c; enabled := enabled c; apiUrl := apiUrl c; state := st |}.

Definition getState (c : Cluster) : ClusterState := state c.

(** Modelled from the spec: [Cluster.toJSON] is missing; the cluster record
    of a snapshot holds exactly the persisted attributes. *)
Definition Cluster_toJSON (c : Cluster) : ClusterModel := model c.

Definition assign {A : Type} (new old : option A) : option A :=
  match new with Some _ => new | None => old end.

(** Modelled from the spec: [Cluster.updateModel] is missing; the cluster is
    updated in place from the model: the attributes the model carries
    replace the cluster's, an optional attribute the model leaves out stays
    as it is, and the in-memory fields are not touched. *)
Definition updateModel (m : ClusterModel) (c : Cluster) : Cluster :=
  let old := model c in
  {| model :=
       {| id := id m;
          kubeConfigPath := kubeConfigPath m;
          workspace := assign (workspace m) (workspace old);
          contextName := assign (contextName m) (contextName old);
          preferences := assign (preferences m) (preferences old);
          metadata := assign (metadata m) (metadata old);
          ownerRef := assign (ownerRef m) (ownerRef old);
          accessibleNamespaces :=
            assign (accessibleNamespaces m) (accessibleNamespaces old);
          kubeConfig := assign (kubeConfig m) (kubeConfig old) |};
     enabled := enabled c;
     apiUrl := apiUrl c;
     state := state c |}.

(** ** The file system and promises *)

Record File := {
  contents : string;
  mode : Z;
}.

Abbreviation FileSystem := (gmap string File) (only parsing).

Inductive FsError := ENOENT.

(** The outcome of an awaited promise. *)
Inductive Settled (A : Type) :=
  | Fulfilled (a : A)
  | Rejected (e : FsError).
Arguments Fulfilled {A} a.
Arguments Rejected {A} e.

(** [promise.catch(handler)] *)
Definition promise_catch {A : Type} (p : Settled A) (handler : FsError → A) : Settled A :=
  match p with
  | Fulfilled a => Fulfilled a
  | Rejected e => Fulfilled (handler e)
  end.

(** src/common/utils/index.ts *)
Definition noop {T : Type} (args : T) : unit := tt.

(** [unlink] of fs-extra on a map from paths to files: the promise is
    rejected when there is no file at the path, otherwise the file is
    removed. *)
Definition unlink (p : string) (fs : FileSystem) : Settled unit * FileSystem :=
  match fs !! p with
  | Some _ => (Fulfilled tt, base.delete p fs)
  | None => (Rejected ENOENT, fs)
  end.

Record WriteOptions := { opt_mode : Z }.

(** The octal literal [0o600]: read and write for the owner, nothing for
    the group and the others. *)
Definition mode_0o600 : Z := 6 * 8 * 8.

(** Modelled from the spec: [saveToAppFiles] (src/common/utils/saveToAppFiles.ts)
    is missing; it persists the contents to the file at the given path with
    the permission bits of the options. *)
Definition saveToAppFiles (filePath fileContents : string) (options : WriteOptions)
    (fs : FileSystem) : FileSystem :=
  <[filePath := {| contents := fileContents; mode := opt_mode options |}]> fs.

(** ** What the store takes from Electron, Node and the kubeconfig parser *)

Record Platform := {
  (** [(app || remote.app).getPath("userData")] *)
  userData : string;
  (** [path.resolve(...segments)] *)
  path_resolve : list string → string;
  (** [KubeConfig] of @kubernetes/client-node and [dumpConfigYaml] *)
  KubeConfig : Type;
  dumpConfigYaml : KubeConfig → string;
  (** the server URL of a named context in the text of a config bundle;
      none when the bundle cannot be parsed or the context is absent *)
  contextServer : string → string → option string;
}.

Inductive AppEvent := AppEventOf (name action : string).

(** The store with the heap of Cluster objects, the event bus and the disk. *)
Record World := {
  objects : list Cluster;
  activeCluster : option ClusterId;
  removedClusters : list (ClusterId * nat);
  clusters : list (ClusterId * nat);
  appEventBus : list AppEvent;
  disk : FileSystem;
}.

Definition with_objects (h : list Cluster) (w : World) : World :=
  {| objects := h; activeCluster := activeCluster w;
     removedClusters := removedClusters w; clusters := clusters w;
     appEventBus := appEventBus w; disk := disk w |}.

Definition with_activeCluster (a : option ClusterId) (w : World) : World :=
  {| objects := objects w; activeCluster := a;
     removedClusters := removedClusters w; clusters := clusters w;
     appEventBus := appEventBus w; disk := disk w |}.

Definition with_removedClusters (m : list (ClusterId * nat)) (w : World) : World :=
  {| objects := objects w; activeCluster := activeCluster w;
     removedClusters := m; clusters := clusters w;
     appEventBus := appEventBus w; disk := disk w |}.

Definition with_clusters (m : list (ClusterId * nat)) (w : World) : World :=
  {| objects := objects w; activeCluster := activeCluster w;
     removedClusters := removedClusters w; clusters := m;
     appEventBus := appEventBus w; disk := disk w |}.

Definition with_disk (d : FileSystem) (w : World) : World :=
  {| objects := objects w; activeCluster := activeCluster w;
     removedClusters := removedClusters w; clusters := clusters w;
     appEventBus := appEventBus w; disk := d |}.

Definition emit (e : AppEvent) (w : World) : World :=
  {| objects := objects w; activeCluster := activeCluster w;
     removedClusters := removedClusters w; clusters := clusters w;
     appEventBus := appEventBus w ++ [e]; disk := disk w |}.

Definition initialState : ClusterState :=
  {| phase := Disconnected; online := false; accessible := false;
     version := None; distribution := None; lastError := None |}.

Section ClusterStore.
Variable P : Platform.

(** Modelled from the spec: the credential resolver behind the Cluster
    constructor is missing; it reads the bundle at the config path and
    resolves the named context to its server URL, and fails when the bundle
    cannot be read or parsed or the context is absent. *)
Definition resolveApiUrl (fs : FileSystem) (m : ClusterModel) : option string :=
  f ← fs !! kubeConfigPath m;
  ctx ← contextName m;
  contextServer P (contents f) ctx.

(** Modelled from the spec: the constructor of Cluster is missing; a
    cluster is constructed from a configuration model, disabled and
    disconnected, with the API URL its configuration context resolves to. *)
Definition new_Cluster (fs : FileSystem) (m : ClusterModel) : Cluster :=
  {| model := m; enabled := false; apiUrl := resolveApiUrl fs m;
     state := initialState |}.

Definition getCustomKubeConfigPath (clusterId : ClusterId) : string :=
  path_resolve P [userData P; "kubeconfigs"; clusterId].

Definition embedCustomKubeConfig (clusterId : ClusterId)
    (kubeConfig : KubeConfig P + string) (fs : FileSystem) : string * FileSystem :=
  let filePath := getCustomKubeConfigPath clusterId in
  let fileContents :=
    match kubeConfig with
    | inr text => text
    | inl config => dumpConfigYaml P config
    end in
  let fs := saveToAppFiles filePath fileContents {| opt_mode := mode_0o600 |} fs in
  (filePath, fs).

Definition getById (clusterId : ClusterId) (w : World) : option nat :=
  JsMap.get clusterId (clusters w).

Definition deref (w : World) (r : nat) : option Cluster := objects w !! r.

Definition clustersList (w : World) : list Cluster :=
  omap (deref w) (JsMap.values (clusters w)).

Definition enabledClustersList (w : World) : list Cluster :=
  filter (λ c, enabled c = true) (clustersList w).

Definition connectedClustersList (w : World) : list Cluster :=
  filter (λ c, disconnected c = false) (clustersList w).

Definition active (w : World) : option nat :=
  a ← activeCluster w; getById a w.

Definition isActive (clusterId : ClusterId) (w : World) : bool :=
  bool_decide (activeCluster w = Some clusterId).

Definition hasClusters (w : World) : bool :=
  bool_decide (0 < JsMap.size (clusters w)).

(** [setActive(clusterId)]; [None] is the call [setActive(null)]. *)
Definition setActive (clusterId : option ClusterId) (w : World) : World :=
  let cluster := k ← clusterId; r ← JsMap.get k (clusters w); deref w r in
  let clusterId :=
    match cluster with
    | Some c => if enabled c then clusterId else None
    | None => None
    end in
  with_activeCluster clusterId w.

Definition deactivate (clusterId : ClusterId) (w : World) : World :=
  if isActive clusterId w then setActive None w else w.

(** [addCluster(model)]: the argument is a model or a reference to a
    Cluster instance; the result is the reference to the cluster added. *)
Definition addCluster (arg : ClusterModel + nat) (w : World) : nat * World :=
  let w := emit (AppEventOf "cluster" "add") w in
  let '(cluster, w) :=
    match arg with
    | inr r => (r, w)
    | inl m => (length (objects w), with_objects (objects w ++ [new_Cluster (disk w) m]) w)
    end in
  let w :=
    match deref w cluster with
    | Some c =>
        if negb (isManaged c)
        then with_objects (<[cluster := set_enabled true c]> (objects w)) w
        else w
    | None => w
    end in
  let model_id :=
    match arg with
    | inl m => Some (id m)
    | inr r => id ∘ model <$> deref w r
    end in
  match model_id with
  | Some k => (cluster, with_clusters (JsMap.set k cluster (clusters w)) w)
  | None => (cluster, w)
  end.

Fixpoint addClusters (models : list (ClusterModel + nat)) (w : World) : list nat * World :=
  match models with
  | [] => ([], w)
  | m :: models =>
      let '(c, w) := addCluster m w in
      let '(cs, w) := addClusters models w in
      (c :: cs, w)
  end.

(** [removeById(clusterId)]: the outcome of the promise and the world
    after it. *)
Definition removeById (clusterId : ClusterId) (w : World) : Settled unit * World :=
  let w := emit (AppEventOf "cluster" "remove") w in
  match getById clusterId w with
  | Some cluster =>
      let w := with_clusters (JsMap.delete clusterId (clusters w)) w in
      let w :=
        if decide (activeCluster w = Some clusterId) then setActive None w else w in
      match deref w cluster with
      | Some c =>
          if decide (kubeConfigPath (model c) = getCustomKubeConfigPath clusterId)
          then
            let '(p, fs) := unlink (kubeConfigPath (model c)) (disk w) in
            (promise_catch p noop, with_disk fs w)
          else (Fulfilled tt, w)
      | None => (Fulfilled tt, w)
      end
  | None => (Fulfilled tt, w)
  end.

Definition removeCluster (m : ClusterModel) (w : World) : Settled unit * World :=
  removeById (id m) w.

(** One turn of the loop of [fromStore] over the models of the snapshot:
    the heap and [newClusters] after the model. *)
Definition fromStore_model (fs : FileSystem) (currentClusters : list (ClusterId * nat))
    (acc : list Cluster * list (ClusterId * nat)) (clusterModel : ClusterModel)
    : list Cluster * list (ClusterId * nat) :=
  let '(h, newClusters) := acc in
  match JsMap.get (id clusterModel) currentClusters with
  | Some cluster =>
      (alter (updateModel clusterModel) cluster h,
       JsMap.set (id clusterModel) cluster newClusters)
  | None =>
      let c := new_Cluster fs clusterModel in
      let c := if negb (isManaged c) && truthy (apiUrl c) then set_enabled true c else c in
      (h ++ [c], JsMap.set (id clusterModel) (length h) newClusters)
  end.

(** One turn of [currentClusters.forEach]: [removedClusters] after the
    cluster. *)
Definition fromStore_removed (h : list Cluster) (newClusters : list (ClusterId * nat))
    (removed : list (ClusterId * nat)) (cluster : nat) : list (ClusterId * nat) :=
  match h !! cluster with
  | Some c =>
      if negb (JsMap.has (id (model c)) newClusters)
      then JsMap.set (id (model c)) cluster removed
      else removed
  | None => removed
  end.

Definition fromStore (data : ClusterStoreModel) (w : World) : World :=
  let currentClusters := clusters w in
  let '(h, newClusters) :=
    foldl (fromStore_model (disk w) currentClusters) (objects w, [])
      (default [] (sm_clusters data)) in
  let removed :=
    foldl (fromStore_removed h newClusters) [] (JsMap.values currentClusters) in
  let target := k ← sm_activeCluster data; r ← JsMap.get k newClusters; h !! r in
  let newActive :=
    match target with
    | Some c => if enabled c then sm_activeCluster data else None
    | None => None
    end in
  {| objects := h; activeCluster := newActive;
     removedClusters := removed; clusters := newClusters;
     appEventBus := appEventBus w; disk := disk w |}.

Definition toJSON (w : World) : ClusterStoreModel :=
  {| sm_activeCluster := activeCluster w;
     sm_clusters := Some (Cluster_toJSON <$> clustersList w) |}.

(** The listener of [registerIpcListener] for a broadcast on
    "cluster:state". *)
Definition registerIpcListener_onState (clusterId : ClusterId) (st : ClusterState) (w : World) : World :=
  match getById clusterId w with
  | Some cluster => with_objects (alter (setState st) cluster (objects w)) w
  | None => w
  end.

(** [load] in a renderer: the states of the initial sync are applied one
    after the other. *)
Definition load_renderer (clusterStates : list (ClusterId * ClusterState)) (w : World) : World :=
  foldl
    (λ w clusterState,
       match getById clusterState.1 w with
       | Some cluster =>
           with_objects (alter (setState clusterState.2) cluster (objects w)) w
       | None => w
       end)
    w clusterStates.

(** [load] in the main process: the answer to a state request. *)
Definition load_main (w : World) : list (ClusterId * ClusterState) :=
  (λ c, (id (model c), getState c)) <$> clustersList w.
End ClusterStore.

(** ** A platform to run the store on *)
Module Posix.
Definition join (segments : list string) : string :=
  foldr (λ seg acc, "/" +:+ seg +:+ acc) "" segments.

(** A bundle is the line of one context: the server URL of every context
    with a name; the empty text does not parse. *)
Definition server_of (text ctx : string) : option string :=
  if decide (ctx = "") then None
  else if decide (text = "") then None
  else Some text.

Definition platform : Platform :=
  {| userData := "home/lens";
     path_resolve := join;
     KubeConfig := string;
     dumpConfigYaml := λ config, config;
     contextServer := server_of |}.
End Posix.

(** ** Registry states and what the proofs speak of *)

(** The cluster under an identifier exists and is enabled. *)
Definition enabledCluster (w : World) (k : ClusterId) : Prop :=
  ∃ r c, JsMap.get k (clusters w) = Some r ∧ objects w !! r = Some c ∧ enabled c = true.

(** The active identifier, if set, references an enabled cluster. *)
Definition active_enabled (w : World) : Prop :=
  ∀ a, activeCluster w = Some a → enabledCluster w a.

(** Every entry of the registry is a live cluster stored under its own
    identifier. *)
Definition keyed_by_id (h : list Cluster) (m : list (ClusterId * nat)) : Prop :=
  ∀ k r, (k, r) ∈ m → ∃ c, h !! r = Some c ∧ id (model c) = k.

(** The registry is a map (no identifier twice) of clusters keyed by their
    identifiers. *)
Definition registry_wf (w : World) : Prop :=
  NoDup (JsMap.keys (clusters w)) ∧ keyed_by_id (objects w) (clusters w).

Definition enabledOf (w : World) (r : nat) : option bool := enabled <$> objects w !! r.

Definition emptyWorld : World :=
  {| objects := []; activeCluster := None; removedClusters := []; clusters := [];
     appEventBus := []; disk := ∅ |}.

(** The cluster a model is added as. *)
Definition added (P : Platform) (fs : FileSystem) (m : ClusterModel) : Cluster :=
  let c := new_Cluster P fs m in
  if negb (isManaged c) then set_enabled true c else c.

(** The disk after the removal of the cluster behind [r]. *)
Definition disk_after (P : Platform) (w : World) (k : ClusterId) (r : nat) : FileSystem :=
  match objects w !! r with
  | Some c =>
      if decide (kubeConfigPath (model c) = getCustomKubeConfigPath P k)
      then base.delete (getCustomKubeConfigPath P k) (disk w)
      else disk w
  | None => disk w
  end.

(** The models of a list applied to a cluster one after the other. *)
Definition apply_updates (c : Cluster) (ms : list ClusterModel) : Cluster :=
  foldl (λ c m, updateModel m c) c ms.

(** The heap and [newClusters] after the loop of [fromStore] over the models
    [ms], started on the heap [h0]. *)
Definition loop (P : Platform) (fs : FileSystem) (current : list (ClusterId * nat))
    (h0 : list Cluster) (ms : list ClusterModel) : list Cluster * list (ClusterId * nat) :=
  foldl (fromStore_model P fs current) (h0, []) ms.

(** The models of the snapshot that are applied to the object behind [r]. *)
Definition updates (current : list (ClusterId * nat)) (r : nat) (ms : list ClusterModel)
    : list ClusterModel :=
  filter (λ m, JsMap.get (id m) current = Some r) ms.

(** The worlds the operations lead to from the empty one; the disk may
    change under the store at any time. *)
Inductive step (P : Platform) : World → World → Prop :=
  | step_setActive clusterId w : step P w (setActive clusterId w)
  | step_addCluster arg w : step P w (addCluster P arg w).2
  | step_removeById clusterId w : step P w (removeById P clusterId w).2
  | step_fromStore data w : step P w (fromStore P data w)
  | step_state clusterId st w : step P w (registerIpcListener_onState clusterId st w)
  | step_disk fs w : step P w (with_disk fs w).

Definition reachable (P : Platform) (w : World) : Prop := rtc (step P) emptyWorld w.

(** ** Worlds to run the operations on *)
Module Scenario.
Definition P : Platform := Posix.platform.

Definition bare (k path : string) (ctx owner : option string) : ClusterModel :=
  {| id := k; kubeConfigPath := path; workspace := None; contextName := ctx;
     preferences := None; metadata := None; ownerRef := owner;
     accessibleNamespaces := None; kubeConfig := None |}.

(** A pasted kubeconfig, embedded under the identifier "c1". *)
Definition pasted : string * gmap string File :=
  embedCustomKubeConfig P "c1" (inr "https://10.0.0.1:6443") ∅.

Definition prod : ClusterModel := bare "c1" pasted.1 (Some "prod") None.
Definition prod_managed : ClusterModel := bare "c1" pasted.1 (Some "prod") (Some "ext").
Definition dev : ClusterModel := bare "c2" "/home/me/.kube/config" (Some "dev") None.
(** A model on a config file that exists, with an empty context name. *)
Definition broken : ClusterModel := bare "c3" pasted.1 (Some "") None.

Definition installed : World :=
  {| objects := []; activeCluster := None; removedClusters := []; clusters := [];
     appEventBus := []; disk := pasted.2 |}.

(** "c1" and "c2" added, "c1" active. *)
Definition running : World :=
  setActive (Some "c1")
    (addCluster P (inl dev) (addCluster P (inl prod) installed).2).2.

(** "c1" added while its private config file is not on the disk. *)
Definition orphan : World := (addCluster P (inl prod) emptyWorld).2.

(** The active cluster replaced by an owner-managed one of the same
    identifier. *)
Definition stale : World := (addCluster P (inl prod_managed) running).2.

(** A registry with one owner-managed cluster that its owner enabled. *)
Definition owned : World :=
  (addCluster P (inr 0%nat)
     {| objects := [set_enabled true (new_Cluster P pasted.2 prod_managed)];
        activeCluster := None; removedClusters := []; clusters := [];
        appEventBus := []; disk := pasted.2 |}).2.

Definition connected : ClusterState :=
  {| phase := Connected; online := true; accessible := true;
     version := Some "v1.20.2"; distribution := None; lastError := None |}.
End Scenario.

(** ** The rest of the store: hosts of cluster frames *)

(** [s.split(sep)] for a separator of one character. *)
Fixpoint split (sep : ascii) (s : string) : list string :=
  match s with
  | EmptyString => [EmptyString]
  | String c s' =>
      if decide (c = sep) then EmptyString :: split sep s'
      else match split sep s' with
           | [] => [String c EmptyString]
           | word :: words => String c word :: words
           end
  end.

(** [array.slice(start, end)]: a negative index counts from the end. *)
Definition js_slice {A : Type} (first final : Z) (l : list A) : list A :=
  let len := Z.of_nat (length l) in
  let k := if decide (first < 0)%Z then Z.max (len + first) 0 else Z.min first len in
  let e := if decide (final < 0)%Z then Z.max (len + final) 0 else Z.min final len in
  take (Z.to_nat (e - k)) (drop (Z.to_nat k) l).

Definition getClusterIdFromHost (host : string) : option ClusterId :=
  let subDomains := split "." (default "" (head (split ":" host))) in
  head (js_slice (-2) (-1) subDomains).

(** [getClusterFrameUrl(clusterId)]; the first argument is [location.host]. *)
Definition getClusterFrameUrl (location_host : string) (clusterId : ClusterId) : string :=
  "//" +:+ clusterId +:+ "." +:+ location_host.

Definition getHostedClusterId (location_host : string) : option ClusterId :=
  getClusterIdFromHost location_host.

(** [getHostedCluster()]: [getById] of an undefined identifier is null. *)
Definition getHostedCluster (location_host : string) (w : World) : option nat :=
  match getHostedClusterId location_host with
  | Some clusterId => getById clusterId w
  | None => None
  end.

(** The character does not occur in the string. *)
Fixpoint free_of (c : ascii) (s : string) : Prop :=
  match s with
  | EmptyString => True
  | String c' s' => c' ≠ c ∧ free_of c s'
  end.

(** ** The rest of the store: what the proofs speak of *)

(** The active identifier, if set, is an identifier of the registry. *)
Definition active_known (w : World) : Prop :=
  ∀ a, activeCluster w = Some a → a ∈ JsMap.keys (clusters w).

(** The cluster [fromStore] constructs for a model that is not in memory. *)
Definition reloaded (P : Platform) (fs : FileSystem) (m : ClusterModel) : Cluster :=
  let c := new_Cluster P fs m in
  if negb (isManaged c) && truthy (apiUrl c) then set_enabled true c else c.

(** ** The window manager (src/main/window-manager.ts) *)

(** What the window manager reads and writes of an Electron window. *)
Record BrowserWindow := {
  bw_destroyed : bool;
  bw_visible : bool;
}.

Definition BrowserWindow_hide (b : BrowserWindow) : BrowserWindow :=
  {| bw_destroyed := bw_destroyed b; bw_visible := false |}.

Record WindowManager := {
  mainWindow : option BrowserWindow;
  splashWindow : option BrowserWindow;
  wm_activeClusterId : option ClusterId;
}.

Inductive JsError := TypeError.

(** [hide()]: the outcome and the manager after it. [w?.isDestroyed()] of a
    missing window is undefined, so the guard holds and [w.hide()] is a
    TypeError. *)
Definition hide (wm : WindowManager) : (JsError + unit) * WindowManager :=
  let guard (win : option BrowserWindow) :=
    match win with
    | Some b => negb (bw_destroyed b)
    | None => true
    end in
  let step1 :=
    if guard (mainWindow wm)
    then match mainWindow wm with
         | Some b =>
             inr {| mainWindow := Some (BrowserWindow_hide b);
                    splashWindow := splashWindow wm;
                    wm_activeClusterId := wm_activeClusterId wm |}
         | None => inl TypeError
         end
    else inr wm in
  match step1 with
  | inl e => (inl e, wm)
  | inr wm1 =>
      if guard (splashWindow wm1)
      then match splashWindow wm1 with
           | Some b =>
               (inr tt,
                {| mainWindow := mainWindow wm1;
                   splashWindow := Some (BrowserWindow_hide b);
                   wm_activeClusterId := wm_activeClusterId wm1 |})
           | None => (inl TypeError, wm1)
           end
      else (inr tt, wm1)
  end.

(** The listener of [bindEvents] for the visible cluster of the UI. *)
Definition bindEvents_onCurrentId (clusterId : ClusterId) (wm : WindowManager) : WindowManager :=
  {| mainWindow := mainWindow wm; splashWindow := splashWindow wm;
     wm_activeClusterId := Some clusterId |}.

(** ** Node's [path.resolve] on POSIX *)

Definition is_absolute (p : string) : bool :=
  match p with
  | String c _ => bool_decide (c = "/"%char)
  | EmptyString => false
  end.

(** [resolvedPath] and [resolvedAbsolute] after the loop of [path.resolve]
    over the paths from right to left: an empty path is skipped and nothing
    left of an absolute path is read. *)
Fixpoint resolve_join (paths : list string) : string * bool :=
  match paths with
  | [] => ("", false)
  | p :: rest =>
      let '(resolved, absolute) := resolve_join rest in
      if absolute then (resolved, true)
      else if decide (p = "") then (resolved, false)
      else (p +:+ "/" +:+ resolved, is_absolute p)
  end.

(** One segment of [normalizeString]: empty segments and "." are dropped,
    ".." removes the segment before it, or is kept above the root when that
    is allowed. *)
Definition normalize_step (allowAboveRoot : bool) (res : list string) (seg : string)
    : list string :=
  if decide (seg = "") then res
  else if decide (seg = ".") then res
  else if decide (seg = "..") then
    match last res with
    | Some l =>
        if decide (l = "..") then (if allowAboveRoot then res ++ [".."] else res)
        else take (length res - 1) res
    | None => if allowAboveRoot then [".."] else []
    end
  else res ++ [seg].

Definition normalizeString (allowAboveRoot : bool) (path : string) : list string :=
  foldl (normalize_step allowAboveRoot) [] (split "/" path).

Fixpoint intercalate (segs : list string) : string :=
  match segs with
  | [] => ""
  | [seg] => seg
  | seg :: rest => seg +:+ "/" +:+ intercalate rest
  end.

(** [path.resolve(...args)] in a process whose working directory is [cwd]. *)
Definition path_posix_resolve (cwd : string) (args : list string) : string :=
  let '(resolved, absolute) := resolve_join (cwd :: args) in
  let segs := normalizeString (negb absolute) resolved in
  if absolute then "/" +:+ intercalate segs
  else match segs with [] => "." | _ => intercalate segs end.

(** The platform resolves paths as Node does. *)
Definition node_paths (cwd : string) (P : Platform) : Prop :=
  ∀ args, path_resolve P args = path_posix_resolve cwd args.

(** A name of one directory entry. *)
Definition plain_segment (s : string) : Prop :=
  s ≠ "" ∧ s ≠ "." ∧ s ≠ ".." ∧ free_of "/" s.

(** The path lies below the directory. *)
Definition under (dir path : string) : bool := String.prefix (dir +:+ "/") path.

(** A platform on Node's paths, with the data directory of a user. *)
Module NodeScenario.
Definition platform : Platform :=
  {| userData := "/home/me/.config/Lens";
     path_resolve := path_posix_resolve "/home/me";
     KubeConfig := string;
     dumpConfigYaml := λ config, config;
     contextServer := Posix.server_of |}.
End NodeScenario.

(** ** Properties of the map operations *)
Module JsMapFacts.
Section facts.
Context {V : Type}.
Implicit Types (m : list (string * V)) (k : string) (v : V).

Lemma get_set_eq k v m : JsMap.get k (JsMap.set k v m) = Some v.
Proof.
  induction m as [|[k' v'] m IH]; simpl.
  - by rewrite decide_True.
  - destruct (decide (k' = k)) as [->|Hne]; simpl.
    + by rewrite decide_True.
    + by rewrite decide_False.
Qed.

Lemma get_set_ne k k' v m : k ≠ k' → JsMap.get k' (JsMap.set k v m) = JsMap.get k' m.
Proof.
  intros Hne. induction m as [|[k0 v0] m IH]; simpl.
  - by rewrite decide_False.
  - destruct (decide (k0 = k)) as [->|Hne0]; simpl.
    + by rewrite !decide_False.
    + by rewrite IH.
Qed.

Lemma get_delete_eq k m : JsMap.get k (JsMap.delete k m) = None.
Proof.
  induction m as [|[k' v'] m IH]; simpl; [done|].
  destruct (decide (k' = k)) as [->|Hne]; simpl; [done|].
  by rewrite decide_False.
Qed.

Lemma get_delete_ne k k' m : k ≠ k' → JsMap.get k' (JsMap.delete k m) = JsMap.get k' m.
Proof.
  intros Hne. induction m as [|[k0 v0] m IH]; simpl; [done|].
  destruct (decide (k0 = k)) as [->|Hne0]; simpl.
  - by rewrite decide_False.
  - by rewrite IH.
Qed.

Lemma get_None k m : JsMap.get k m = None ↔ k ∉ JsMap.keys m.
Proof.
  unfold JsMap.keys. induction m as [|[k' v'] m IH]; simpl.
  - split; [intros _; apply not_elem_of_nil | done].
  - rewrite not_elem_of_cons. destruct (decide (k' = k)) as [->|Hne].
    + split; [done | by intros [? _]].
    + rewrite IH. split; [intros H; split; [congruence | done] | by intros [_ H]].
Qed.

Lemma get_Some_elem k v m : JsMap.get k m = Some v → (k, v) ∈ m.
Proof.
  induction m as [|[k' v'] m IH]; simpl; [done|].
  destruct (decide (k' = k)) as [->|Hne].
  - intros [= ->]. apply list_elem_of_here.
  - intros H. apply list_elem_of_further. auto.
Qed.

Lemma elem_get k v m : NoDup (JsMap.keys m) → (k, v) ∈ m → JsMap.get k m = Some v.
Proof.
  unfold JsMap.keys. induction m as [|[k' v'] m IH]; simpl.
  - intros _ H. by apply elem_of_nil in H.
  - intros Hnd Hin. apply NoDup_cons in Hnd as [Hk Hnd].
    apply elem_of_cons in Hin as [[= -> ->]|Hin].
    + by rewrite decide_True.
    + rewrite decide_False; [by apply IH|].
      intros ->. apply Hk. apply list_elem_of_fmap. by exists (k, v).
Qed.

Lemma keys_set_present k v m : k ∈ JsMap.keys m → JsMap.keys (JsMap.set k v m) = JsMap.keys m.
Proof.
  unfold JsMap.keys. induction m as [|[k' v'] m IH]; simpl.
  - intros H. by apply elem_of_nil in H.
  - intros Hin. destruct (decide (k' = k)) as [->|Hne]; simpl; [done|].
    f_equal. apply IH. apply elem_of_cons in Hin as [->|Hin]; done.
Qed.

Lemma set_absent k v m : k ∉ JsMap.keys m → JsMap.set k v m = m ++ [(k, v)].
Proof.
  unfold JsMap.keys. induction m as [|[k' v'] m IH]; simpl; [done|].
  rewrite not_elem_of_cons. intros [Hne Hin].
  rewrite decide_False; [|done]. by rewrite IH.
Qed.

Lemma keys_set k v m : k ∈ JsMap.keys (JsMap.set k v m).
Proof.
  destruct (decide (k ∈ JsMap.keys m)) as [Hin|Hin].
  - by rewrite keys_set_present.
  - rewrite set_absent; [|done]. unfold JsMap.keys. rewrite fmap_app.
    apply elem_of_app. right. apply list_elem_of_here.
Qed.

Lemma NoDup_set k v m : NoDup (JsMap.keys m) → NoDup (JsMap.keys (JsMap.set k v m)).
Proof.
  intros Hnd. destruct (decide (k ∈ JsMap.keys m)) as [Hin|Hin].
  - by rewrite keys_set_present.
  - rewrite set_absent; [|done]. unfold JsMap.keys in *. rewrite fmap_app. simpl.
    apply NoDup_app. split_and!; [done| |apply NoDup_singleton].
    intros x Hx Hx'. apply list_elem_of_singleton in Hx' as ->. done.
Qed.

Lemma keys_delete k k' m : k' ∈ JsMap.keys (JsMap.delete k m) → k' ∈ JsMap.keys m ∧ k' ≠ k.
Proof.
  unfold JsMap.keys. induction m as [|[k0 v0] m IH]; simpl.
  - intros H. by apply elem_of_nil in H.
  - destruct (decide (k0 = k)) as [->|Hne]; simpl.
    + intros H. destruct (IH H). split; [by apply list_elem_of_further | done].
    + intros H. apply elem_of_cons in H as [->|H].
      * split; [apply list_elem_of_here | done].
      * destruct (IH H). split; [by apply list_elem_of_further | done].
Qed.

Lemma NoDup_delete k m : NoDup (JsMap.keys m) → NoDup (JsMap.keys (JsMap.delete k m)).
Proof.
  induction m as [|[k0 v0] m IH]; simpl; [done|].
  intros Hnd. apply NoDup_cons in Hnd as [Hk Hnd].
  destruct (decide (k0 = k)) as [->|Hne]; simpl; [by apply IH|].
  apply NoDup_cons. split; [|by apply IH].
  intros H. apply keys_delete in H as [H _]. done.
Qed.

Lemma has_true k m : JsMap.has k m = true ↔ k ∈ JsMap.keys m.
Proof.
  unfold JsMap.has. destruct (JsMap.get k m) eqn:E.
  - split; [intros _|done]. destruct (decide (k ∈ JsMap.keys m)) as [|Hn]; [done|].
    apply get_None in Hn. congruence.
  - apply get_None in E. split; [done | by intros ?].
Qed.
End facts.
End JsMapFacts.

Section setActive_facts.

Lemma setActive_Some_inv clusterId w a :
  activeCluster (setActive clusterId w) = Some a →
  clusterId = Some a ∧ enabledCluster w a.
Proof.
  unfold setActive, enabledCluster, deref. simpl.
  destruct clusterId as [k|]; simpl; [|done].
  destruct (JsMap.get k (clusters w)) as [r|] eqn:Hr; simpl; [|done].
  destruct (objects w !! r) as [c|] eqn:Hc; simpl; [|done].
  destruct (enabled c) eqn:He; [|done].
  intros [= ->]. eauto 6.
Qed.

Lemma setActive_enabled w k :
  enabledCluster w k → activeCluster (setActive (Some k) w) = Some k.
Proof.
  intros (r & c & Hr & Hc & He). unfold setActive, deref. simpl.
  rewrite Hr. simpl. rewrite Hc. simpl. by rewrite He.
Qed.

Lemma setActive_null w : activeCluster (setActive None w) = None.
Proof. done. Qed.

Lemma setActive_frame clusterId w :
  objects (setActive clusterId w) = objects w
  ∧ clusters (setActive clusterId w) = clusters w
  ∧ removedClusters (setActive clusterId w) = removedClusters w
  ∧ disk (setActive clusterId w) = disk w.
Proof. done. Qed.

End setActive_facts.

Section fromStore_active.
Variable P : Platform.

Lemma fromStore_unfold data w :
  fromStore P data w =
    let loop := foldl (fromStore_model P (disk w) (clusters w)) (objects w, [])
                  (default [] (sm_clusters data)) in
    let target := k ← sm_activeCluster data; r ← JsMap.get k loop.2; loop.1 !! r in
    {| objects := loop.1;
       activeCluster :=
         match target with
         | Some c => if enabled c then sm_activeCluster data else None
         | None => None
         end;
       removedClusters :=
         foldl (fromStore_removed loop.1 loop.2) [] (JsMap.values (clusters w));
       clusters := loop.2;
       appEventBus := appEventBus w; disk := disk w |}.
Proof.
  unfold fromStore.
  by destruct (foldl (fromStore_model P (disk w) (clusters w)) (objects w, [])
                 (default [] (sm_clusters data))) as [h new].
Qed.

Lemma fromStore_active_Some data w a :
  activeCluster (fromStore P data w) = Some a →
  sm_activeCluster data = Some a ∧ enabledCluster (fromStore P data w) a.
Proof.
  rewrite fromStore_unfold. cbv zeta. unfold enabledCluster. simpl.
  set (loop := foldl _ _ _).
  destruct (sm_activeCluster data) as [k|]; simpl; [|done].
  destruct (JsMap.get k loop.2) as [r|] eqn:Hr; simpl; [|done].
  destruct (loop.1 !! r) as [c|] eqn:Hc; simpl; [|done].
  destruct (enabled c) eqn:He; [|done].
  intros [= ->]. split; [done|]. exists r, c. done.
Qed.

Lemma fromStore_active_enabled data w a :
  sm_activeCluster data = Some a →
  enabledCluster (fromStore P data w) a →
  activeCluster (fromStore P data w) = Some a.
Proof.
  rewrite fromStore_unfold. cbv zeta. unfold enabledCluster. simpl.
  set (loop := foldl _ _ _).
  intros -> (r & c & Hr & Hc & He). simpl.
  rewrite Hr. simpl. rewrite Hc. by rewrite He.
Qed.
End fromStore_active.

(** ** Filters *)

Lemma filter_none {A : Type} (Q : A → Prop) `{!∀ x, Decision (Q x)} (l : list A) :
  (∀ x, x ∈ l → ¬ Q x) → filter Q l = [].
Proof.
  induction l as [|x l IH]; intros Hl; [done|].
  rewrite filter_cons_False.
  - apply IH. intros y Hy. apply Hl. by apply list_elem_of_further.
  - apply Hl. apply list_elem_of_here.
Qed.



(** ** C2 and C3: adding clusters *)
Section addCluster_facts.
Variable P : Platform.

Lemma addCluster_model m w :
  addCluster P (inl m) w =
    (length (objects w),
     {| objects := objects w ++ [added P (disk w) m];
        activeCluster := activeCluster w;
        removedClusters := removedClusters w;
        clusters := JsMap.set (id m) (length (objects w)) (clusters w);
        appEventBus := appEventBus w ++ [AppEventOf "cluster" "add"];
        disk := disk w |}).
Proof.
  unfold addCluster, added, deref. simpl.
  rewrite list_lookup_middle; [|done].
  destruct (negb (isManaged (new_Cluster P (disk w) m))) eqn:E; simpl.
  - rewrite (insert_app_r_alt (objects w) [_]); [|done].
    rewrite Nat.sub_diag. simpl. done.
  - done.
Qed.

Lemma addCluster_instance r c w :
  objects w !! r = Some c →
  addCluster P (inr r) w =
    (r,
     {| objects := <[r := if negb (isManaged c) then set_enabled true c else c]> (objects w);
        activeCluster := activeCluster w;
        removedClusters := removedClusters w;
        clusters := JsMap.set (id (model c)) r (clusters w);
        appEventBus := appEventBus w ++ [AppEventOf "cluster" "add"];
        disk := disk w |}).
Proof.
  intros Hc. unfold addCluster, deref. simpl. rewrite Hc.
  destruct (negb (isManaged c)) eqn:E; simpl.
  - rewrite list_lookup_insert_eq; [|by eapply lookup_lt_Some]. done.
  - rewrite Hc. simpl. by rewrite list_insert_id.
Qed.

Lemma added_model fs m : model (added P fs m) = m.
Proof. unfold added. by destruct (negb _). Qed.

Lemma added_enabled fs m : enabled (added P fs m) = negb (truthy (ownerRef m)).
Proof. unfold added, isManaged. simpl. by destruct (truthy (ownerRef m)). Qed.
End addCluster_facts.

(** C2. [addCluster] of a model without owner-reference (none, or the
    empty string that JavaScript takes for unset) leaves the cluster enabled;
    with an owner-reference the enabled flag is left as it was: the cluster
    constructed from the model stays disabled, and a Cluster instance that
    is passed keeps its flag, so one with [enabled = false] and an
    owner-reference is still disabled after the add. *)
Theorem addCluster_enabled_unless_managed (P : Platform) (w : World) :
  (∀ m, truthy (ownerRef m) = false →
     enabledOf (addCluster P (inl m) w).2 (addCluster P (inl m) w).1 = Some true)
  ∧ (∀ m, truthy (ownerRef m) = true →
     enabledOf (addCluster P (inl m) w).2 (addCluster P (inl m) w).1
       = Some (enabled (new_Cluster P (disk w) m))
     ∧ enabled (new_Cluster P (disk w) m) = false)
  ∧ (∀ r c, objects w !! r = Some c → truthy (ownerRef (model c)) = false →
     enabledOf (addCluster P (inr r) w).2 (addCluster P (inr r) w).1 = Some true)
  ∧ (∀ r c, objects w !! r = Some c → truthy (ownerRef (model c)) = true →
     enabledOf (addCluster P (inr r) w).2 (addCluster P (inr r) w).1 = Some (enabled c)).
Proof.
  unfold enabledOf. split_and!.
  - intros m Hm. rewrite addCluster_model. simpl.
    rewrite list_lookup_middle; [|done]. simpl. by rewrite added_enabled, Hm.
  - intros m Hm. rewrite addCluster_model. simpl.
    rewrite list_lookup_middle; [|done]. simpl. by rewrite added_enabled, Hm.
  - intros r c Hc Hm. rewrite (addCluster_instance P r c); [|done]. simpl.
    rewrite list_lookup_insert_eq; [|by eapply lookup_lt_Some].
    unfold isManaged. by rewrite Hm.
  - intros r c Hc Hm. rewrite (addCluster_instance P r c); [|done]. simpl.
    rewrite list_lookup_insert_eq; [|by eapply lookup_lt_Some].
    unfold isManaged. by rewrite Hm.
Qed.


(** ** C4 and C10: removing a cluster *)
Section removeById_facts.
Variable P : Platform.

Lemma unlink_disk p (fs : FileSystem) : (unlink p fs).2 = base.delete p fs.
Proof.
  unfold unlink. destruct (fs !! p) eqn:E; simpl; [done|].
  symmetry. by apply delete_id.
Qed.

Lemma unlink_caught p (fs : FileSystem) :
  promise_catch (unlink p fs).1 noop = Fulfilled tt.
Proof. unfold unlink. by destruct (fs !! p). Qed.

Lemma removeById_known k r w :
  JsMap.get k (clusters w) = Some r →
  removeById P k w =
    (Fulfilled tt,
     {| objects := objects w;
        activeCluster := if decide (activeCluster w = Some k) then None else activeCluster w;
        removedClusters := removedClusters w;
        clusters := JsMap.delete k (clusters w);
        appEventBus := appEventBus w ++ [AppEventOf "cluster" "remove"];
        disk := disk_after P w k r |}).
Proof.
  intros Hr. unfold removeById, getById, disk_after, deref. simpl. rewrite Hr.
  destruct (decide (activeCluster w = Some k)) as [Ha|Ha]; simpl;
    (destruct (objects w !! r) as [c|] eqn:Hc; simpl; [|done]);
    (destruct (decide (kubeConfigPath (model c) = getCustomKubeConfigPath P k)) as [Hp|Hp];
     [|done]);
    rewrite (surjective_pairing (unlink _ _)), unlink_caught, unlink_disk, Hp; done.
Qed.

Lemma removeById_unknown k w :
  JsMap.get k (clusters w) = None →
  removeById P k w = (Fulfilled tt, emit (AppEventOf "cluster" "remove") w).
Proof. intros Hr. unfold removeById, getById. simpl. by rewrite Hr. Qed.
End removeById_facts.

(** C4. [removeById(id)] of a known identifier deletes its entry and no
    other, resets the active identifier when it was [id] and leaves it
    otherwise, and deletes the file at the cluster's config path when that is
    the private path of [id] (and touches no file otherwise). For an unknown
    identifier the registry, the cluster objects and the disk stay as they
    are: only the "remove" event is emitted. So [addCluster] followed by
    [removeById] leaves the registry without the identifier and, for a model
    on its private path, the disk without that file. *)
Theorem removeById_removes (P : Platform) (w : World) (k : ClusterId) :
  (∀ r, JsMap.get k (clusters w) = Some r →
     let w' := (removeById P k w).2 in
     JsMap.get k (clusters w') = None
     ∧ (∀ k', k' ≠ k → JsMap.get k' (clusters w') = JsMap.get k' (clusters w))
     ∧ (activeCluster w = Some k → activeCluster w' = None)
     ∧ (activeCluster w ≠ Some k → activeCluster w' = activeCluster w)
     ∧ (∀ c, objects w !! r = Some c →
          kubeConfigPath (model c) = getCustomKubeConfigPath P k →
          disk w' !! getCustomKubeConfigPath P k = None
          ∧ ∀ p, p ≠ getCustomKubeConfigPath P k → disk w' !! p = disk w !! p)
     ∧ (∀ c, objects w !! r = Some c →
          kubeConfigPath (model c) ≠ getCustomKubeConfigPath P k →
          disk w' = disk w))
  ∧ (JsMap.get k (clusters w) = None →
     removeById P k w = (Fulfilled tt, emit (AppEventOf "cluster" "remove") w))
  ∧ (∀ m, id m = k →
     let w1 := (addCluster P (inl m) w).2 in
     let w2 := (removeById P k w1).2 in
     JsMap.get k (clusters w2) = None
     ∧ (kubeConfigPath m = getCustomKubeConfigPath P k →
        disk w2 !! getCustomKubeConfigPath P k = None)).
Proof.
  split_and!.
  - intros r Hr. cbv zeta. rewrite (removeById_known P k r); [|done]. simpl.
    split_and!.
    + apply JsMapFacts.get_delete_eq.
    + intros k' Hne. by apply JsMapFacts.get_delete_ne.
    + intros Ha. by rewrite decide_True.
    + intros Ha. by rewrite decide_False.
    + intros c Hc Hp. unfold disk_after. rewrite Hc, decide_True; [|done].
      split; [apply lookup_delete_eq|]. intros p Hne. by apply lookup_delete_ne.
    + intros c Hc Hp. unfold disk_after. by rewrite Hc, decide_False.
  - apply removeById_unknown.
  - intros m <-. cbv zeta. rewrite addCluster_model. simpl.
    rewrite (removeById_known P (id m) (length (objects w)));
      [|apply JsMapFacts.get_set_eq]. simpl.
    split; [apply JsMapFacts.get_delete_eq|].
    intros Hp. unfold disk_after. simpl.
    rewrite list_lookup_middle; [|done]. rewrite added_model.
    rewrite decide_True; [|done]. apply lookup_delete_eq.
Qed.

(** ** C9: incoming cluster states *)
Section state_sync.

Lemma load_renderer_cons cs states w :
  load_renderer (cs :: states) w = load_renderer states (registerIpcListener_onState cs.1 cs.2 w).
Proof. done. Qed.

Lemma registerIpcListener_onState_unknown k st w :
  JsMap.get k (clusters w) = None → registerIpcListener_onState k st w = w.
Proof. intros H. unfold registerIpcListener_onState, getById. by rewrite H. Qed.

Lemma load_renderer_unknown states w :
  Forall (λ cs, JsMap.get cs.1 (clusters w) = None) states →
  load_renderer states w = w.
Proof.
  induction 1 as [|cs states Hcs _ IH]; [done|].
  rewrite load_renderer_cons, registerIpcListener_onState_unknown; done.
Qed.

End state_sync.

(** C9. A state message for a known identifier is applied, with [setState],
    to the cluster object the registry holds under that identifier, and
    changes nothing else; a message for an unknown identifier is dropped and
    leaves everything as it is, in the broadcast listener and in the initial
    state sync alike. Both are total: no message raises an error. *)
Theorem state_applied_by_identifier (w : World) (k : ClusterId) (st : ClusterState) :
  (∀ r, JsMap.get k (clusters w) = Some r →
     let w' := registerIpcListener_onState k st w in
     objects w' !! r = setState st <$> objects w !! r
     ∧ (∀ r', r' ≠ r → objects w' !! r' = objects w !! r')
     ∧ clusters w' = clusters w
     ∧ activeCluster w' = activeCluster w
     ∧ removedClusters w' = removedClusters w
     ∧ load_renderer [(k, st)] w = w')
  ∧ (JsMap.get k (clusters w) = None →
     registerIpcListener_onState k st w = w ∧ load_renderer [(k, st)] w = w)
  ∧ (∀ states, Forall (λ cs, JsMap.get cs.1 (clusters w) = None) states →
     load_renderer states w = w).
Proof.
  split_and!.
  - intros r Hr. cbv zeta. unfold registerIpcListener_onState, load_renderer, getById. simpl.
    rewrite Hr. simpl. split_and!; try done.
    + apply list_lookup_alter_eq.
    + intros r' Hne. by apply list_lookup_alter_ne.
  - intros Hk. split; [by apply registerIpcListener_onState_unknown|].
    apply load_renderer_unknown. by repeat constructor.
  - intros states Hs. by apply load_renderer_unknown.
Qed.

(** ** C6 and C7: reload from a snapshot *)

Lemma apply_updates_snoc c ms m :
  apply_updates c (ms ++ [m]) = updateModel m (apply_updates c ms).
Proof. unfold apply_updates. by rewrite foldl_app. Qed.

Lemma apply_updates_memory c ms :
  state (apply_updates c ms) = state c
  ∧ enabled (apply_updates c ms) = enabled c
  ∧ apiUrl (apply_updates c ms) = apiUrl c.
Proof.
  induction ms as [|m ms (Hs & He & Ha)] using rev_ind; [done|].
  rewrite apply_updates_snoc. simpl. by rewrite Hs, He, Ha.
Qed.

Lemma apply_updates_id c ms k :
  id (model c) = k → Forall (λ m, id m = k) ms → id (model (apply_updates c ms)) = k.
Proof.
  intros Hc. induction ms as [|m ms IH] using rev_ind; [done|].
  rewrite Forall_app, Forall_singleton. intros [_ H].
  rewrite apply_updates_snoc. exact H.
Qed.

Lemma updateModel_toJSON c : updateModel (Cluster_toJSON c) c = c.
Proof.
  destruct c as [[? ? w c p md o a kc] ? ? ?]. unfold updateModel, Cluster_toJSON. simpl.
  by destruct w, c, p, md, o, a, kc.
Qed.

Section fromStore_loop.
Variable P : Platform.
Variable fs : FileSystem.
Variable current : list (ClusterId * nat).
Variable h0 : list Cluster.

Lemma loop_snoc ms m : loop P fs current h0 (ms ++ [m]) = fromStore_model P fs current (loop P fs current h0 ms) m.
Proof. unfold loop. by rewrite foldl_app. Qed.

Lemma loop_length ms : (length h0 ≤ length (loop P fs current h0 ms).1)%nat.
Proof.
  induction ms as [|m ms IH] using rev_ind; [done|].
  rewrite loop_snoc. destruct (loop P fs current h0 ms) as [h new]. unfold fromStore_model.
  destruct (JsMap.get (id m) current); simpl in *.
  - by rewrite length_alter.
  - rewrite length_app. lia.
Qed.

Lemma loop_objects ms r :
  (r < length h0)%nat →
  (loop P fs current h0 ms).1 !! r = (λ c, apply_updates c (updates current r ms)) <$> h0 !! r.
Proof.
  intros Hr. induction ms as [|m ms IH] using rev_ind.
  - simpl. by destruct (h0 !! r).
  - rewrite loop_snoc. pose proof (loop_length ms) as Hlen.
    destruct (loop P fs current h0 ms) as [h new]. unfold fromStore_model, updates in *.
    rewrite filter_app. simpl in *.
    destruct (JsMap.get (id m) current) as [r'|] eqn:Hm; simpl.
    + destruct (decide (r' = r)) as [->|Hne].
      * rewrite list_lookup_alter_eq, IH, filter_cons_True, filter_nil; [|done].
        destruct (h0 !! r); simpl; [|done]. by rewrite apply_updates_snoc.
      * rewrite list_lookup_alter_ne, IH, filter_cons_False, filter_nil, app_nil_r;
          [done|congruence|done].
    + rewrite lookup_app_l, IH, filter_cons_False, filter_nil, app_nil_r;
        [done|congruence|lia].
Qed.

Lemma loop_get_absent ms k :
  k ∉ id <$> ms → JsMap.get k (loop P fs current h0 ms).2 = None.
Proof.
  induction ms as [|m ms IH] using rev_ind; [done|].
  rewrite fmap_app, not_elem_of_app. simpl. rewrite list_elem_of_singleton.
  intros [Hms Hm]. rewrite loop_snoc. specialize (IH Hms).
  destruct (loop P fs current h0 ms) as [h new]. unfold fromStore_model. simpl in *.
  destruct (JsMap.get (id m) current); simpl;
    rewrite JsMapFacts.get_set_ne; done.
Qed.

Lemma loop_get_current ms k r :
  JsMap.get k current = Some r → k ∈ id <$> ms → JsMap.get k (loop P fs current h0 ms).2 = Some r.
Proof.
  intros Hk. induction ms as [|m ms IH] using rev_ind.
  - intros H. by apply elem_of_nil in H.
  - rewrite fmap_app, elem_of_app. simpl. rewrite list_elem_of_singleton.
    intros Hin. rewrite loop_snoc. destruct (loop P fs current h0 ms) as [h new].
    unfold fromStore_model. simpl in *.
    destruct (decide (id m = k)) as [Hid|Hid].
    + rewrite Hid, Hk. simpl. apply JsMapFacts.get_set_eq.
    + destruct Hin as [Hin|Hin]; [|congruence].
      destruct (JsMap.get (id m) current); simpl;
        rewrite JsMapFacts.get_set_ne; auto.
Qed.

Lemma loop_get_new ms k :
  JsMap.get k current = None → k ∈ id <$> ms →
  ∃ r, JsMap.get k (loop P fs current h0 ms).2 = Some r ∧ (length h0 ≤ r < length (loop P fs current h0 ms).1)%nat.
Proof.
  intros Hk. induction ms as [|m ms IH] using rev_ind.
  - intros H. by apply elem_of_nil in H.
  - rewrite fmap_app, elem_of_app. simpl. rewrite list_elem_of_singleton.
    intros Hin. rewrite loop_snoc. pose proof (loop_length ms) as Hlen.
    destruct (loop P fs current h0 ms) as [h new]. unfold fromStore_model. simpl in *.
    destruct (decide (id m = k)) as [Hid|Hid].
    + rewrite Hid, Hk. simpl. exists (length h).
      rewrite JsMapFacts.get_set_eq, length_app. simpl. split; [done|lia].
    + destruct Hin as [Hin|Hin]; [|congruence].
      destruct (IH Hin) as (r & Hr & Hlt).
      exists r. destruct (JsMap.get (id m) current); simpl;
        rewrite JsMapFacts.get_set_ne; try done.
      * by rewrite length_alter.
      * rewrite length_app. split; [done|lia].
Qed.

Lemma loop_keys ms k : k ∈ JsMap.keys (loop P fs current h0 ms).2 ↔ k ∈ id <$> ms.
Proof.
  split.
  - intros Hin. destruct (decide (k ∈ id <$> ms)) as [|Hn]; [done|].
    apply loop_get_absent in Hn. apply JsMapFacts.get_None in Hn. done.
  - intros Hin. destruct (JsMap.get k current) as [r|] eqn:Hk.
    + pose proof (loop_get_current ms k r Hk Hin) as H.
      destruct (decide (k ∈ JsMap.keys (loop P fs current h0 ms).2)) as [|Hn]; [done|].
      apply JsMapFacts.get_None in Hn. congruence.
    + destruct (loop_get_new ms k Hk Hin) as (r & H & _).
      destruct (decide (k ∈ JsMap.keys (loop P fs current h0 ms).2)) as [|Hn]; [done|].
      apply JsMapFacts.get_None in Hn. congruence.
Qed.
End fromStore_loop.

Section fromStore_removed_facts.
Variable h : list Cluster.
Variable newClusters : list (ClusterId * nat).

Lemma keyed_by_id_cons k r m :
  keyed_by_id h ((k, r) :: m) →
  (∃ c, h !! r = Some c ∧ id (model c) = k) ∧ keyed_by_id h m.
Proof.
  intros H. split.
  - apply H. apply list_elem_of_here.
  - intros k' r' Hin. apply H. by apply list_elem_of_further.
Qed.

Lemma removed_get current acc k :
  NoDup (JsMap.keys current) → keyed_by_id h current →
  JsMap.get k (foldl (fromStore_removed h newClusters) acc (JsMap.values current)) =
    match JsMap.get k current with
    | Some r => if JsMap.has k newClusters then JsMap.get k acc else Some r
    | None => JsMap.get k acc
    end.
Proof.
  revert acc. induction current as [|[k0 r0] current IH]; intros acc Hnd Hkey; [done|].
  unfold JsMap.keys in Hnd. simpl in Hnd. apply NoDup_cons in Hnd as [Hk0 Hnd].
  apply keyed_by_id_cons in Hkey as [(c & Hc & Hid) Hkey].
  simpl. rewrite IH; [|done..].
  unfold fromStore_removed. rewrite Hc, Hid.
  destruct (decide (k0 = k)) as [->|Hne].
  - assert (JsMap.get k current = None) as -> by by apply JsMapFacts.get_None.
    destruct (JsMap.has k newClusters); simpl; [done|].
    by rewrite JsMapFacts.get_set_eq.
  - destruct (JsMap.has k0 newClusters); simpl; [done|].
    by rewrite JsMapFacts.get_set_ne.
Qed.
End fromStore_removed_facts.

Section registry_wf_facts.

Lemma keyed_injective h m k k' r :
  keyed_by_id h m → (k, r) ∈ m → (k', r) ∈ m → k = k'.
Proof.
  intros Hkey H1 H2.
  destruct (Hkey _ _ H1) as (c & Hc & <-).
  destruct (Hkey _ _ H2) as (c' & Hc' & <-). congruence.
Qed.

Lemma updates_by_id h m k r ms :
  keyed_by_id h m → JsMap.get k m = Some r →
  updates m r ms = filter (λ x, id x = k) ms.
Proof.
  intros Hkey Hk. unfold updates. apply list_filter_iff. intros x. split.
  - intros Hx. apply JsMapFacts.get_Some_elem in Hx, Hk.
    by apply (keyed_injective h m (id x) k r).
  - by intros ->.
Qed.

Lemma loop_keyed P fs m h ms :
  keyed_by_id h m → keyed_by_id (loop P fs m h ms).1 m.
Proof.
  intros Hkey k r Hin. destruct (Hkey k r Hin) as (c & Hc & Hid).
  rewrite loop_objects; [|by eapply lookup_lt_Some].
  rewrite Hc. simpl. eexists. split; [done|].
  apply apply_updates_id; [done|].
  unfold updates. apply Forall_forall. intros x Hx.
  apply list_elem_of_filter in Hx as [Hx _].
  apply JsMapFacts.get_Some_elem in Hx.
  by apply (keyed_injective h m (id x) k r).
Qed.

End registry_wf_facts.

(** C6. Reloading a snapshot into a well-formed registry: a cluster in memory
    whose identifier is not in the snapshot is moved, untouched, to the
    removed clusters; a cluster whose identifier is in the snapshot stays
    the same object under the same identifier, is updated with the models of
    the snapshot for that identifier, and keeps its connection state, its
    enabled flag and its API URL; the active identifier of the snapshot is
    kept when it leads to an enabled cluster of the new set and becomes none
    otherwise. *)
Theorem fromStore_reconciles (P : Platform) (data : ClusterStoreModel) (w : World) :
  registry_wf w →
  let w' := fromStore P data w in
  let models := default [] (sm_clusters data) in
  (∀ k r, JsMap.get k (clusters w) = Some r → k ∉ id <$> models →
     JsMap.get k (removedClusters w') = Some r
     ∧ JsMap.get k (clusters w') = None
     ∧ objects w' !! r = objects w !! r)
  ∧ (∀ k r, JsMap.get k (clusters w) = Some r → k ∈ id <$> models →
     JsMap.get k (clusters w') = Some r
     ∧ JsMap.get k (removedClusters w') = None
     ∧ objects w' !! r =
         (λ c, apply_updates c (filter (λ m, id m = k) models)) <$> objects w !! r
     ∧ (state <$> objects w' !! r) = (state <$> objects w !! r)
     ∧ (enabled <$> objects w' !! r) = (enabled <$> objects w !! r)
     ∧ (apiUrl <$> objects w' !! r) = (apiUrl <$> objects w !! r))
  ∧ (∀ a, sm_activeCluster data = Some a → enabledCluster w' a →
     activeCluster w' = Some a)
  ∧ (∀ a, sm_activeCluster data = Some a → ¬ enabledCluster w' a →
     activeCluster w' = None)
  ∧ (sm_activeCluster data = None → activeCluster w' = None).
Proof.
  intros [Hnd Hkey]. cbv zeta.
  set (models := default [] (sm_clusters data)).
  assert (Hlive : ∀ k r, JsMap.get k (clusters w) = Some r →
            ∃ c, objects w !! r = Some c ∧ id (model c) = k).
  { intros k r Hk. apply Hkey. by apply JsMapFacts.get_Some_elem. }
  split_and!.
  - intros k r Hk Hout. destruct (Hlive k r Hk) as (c & Hc & Hid).
    rewrite fromStore_unfold. cbv zeta. simpl. fold models.
    fold (loop P (disk w) (clusters w) (objects w) models).
    split_and!.
    + rewrite removed_get; [|done|by apply loop_keyed]. rewrite Hk.
      assert (JsMap.has k (loop P (disk w) (clusters w) (objects w) models).2 = false) as ->;
        [|done].
      apply not_true_is_false. rewrite JsMapFacts.has_true, loop_keys. done.
    + by apply loop_get_absent.
    + rewrite loop_objects; [|by eapply lookup_lt_Some].
      rewrite (updates_by_id (objects w) (clusters w) k); [|done..].
      rewrite Hc. simpl. f_equal.
      assert (filter (λ x, id x = k) models = []) as ->; [|done].
      apply filter_none. intros x Hx Hid'. apply Hout. rewrite <- Hid'.
      apply list_elem_of_fmap. by exists x.
  - intros k r Hk Hin. destruct (Hlive k r Hk) as (c & Hc & Hid).
    rewrite fromStore_unfold. cbv zeta. simpl. fold models.
    fold (loop P (disk w) (clusters w) (objects w) models).
    assert (Hobj : (loop P (disk w) (clusters w) (objects w) models).1 !! r =
              Some (apply_updates c (filter (λ m, id m = k) models))).
    { rewrite loop_objects; [|by eapply lookup_lt_Some].
      rewrite (updates_by_id (objects w) (clusters w) k); [|done..]. by rewrite Hc. }
    destruct (apply_updates_memory c (filter (λ m, id m = k) models)) as (Hs & He & Ha).
    split_and!.
    + by apply loop_get_current.
    + rewrite removed_get; [|done|by apply loop_keyed]. rewrite Hk.
      assert (JsMap.has k (loop P (disk w) (clusters w) (objects w) models).2 = true) as ->;
        [|done].
      rewrite JsMapFacts.has_true, loop_keys. done.
    + by rewrite Hobj, Hc.
    + rewrite Hobj, Hc. simpl. by rewrite Hs.
    + rewrite Hobj, Hc. simpl. by rewrite He.
    + rewrite Hobj, Hc. simpl. by rewrite Ha.
  - intros a Ha He. by apply fromStore_active_enabled.
  - intros a Ha Hn. destruct (activeCluster (fromStore P data w)) as [b|] eqn:E; [|done].
    apply fromStore_active_Some in E as [Hb He]. congruence.
  - intros Ha. rewrite fromStore_unfold. cbv zeta. simpl. by rewrite Ha.
Qed.

Section roundtrip.
Variable P : Platform.

Lemma alter_fixed {A : Type} (f : A → A) (l : list A) (i : nat) (x : A) :
  l !! i = Some x → f x = x → alter f i l = l.
Proof.
  intros Hx Hf. apply list_eq. intros j. rewrite list_lookup_alter.
  destruct (decide (i = j)) as [<-|]; [|done]. rewrite Hx. simpl. by rewrite Hf.
Qed.

Lemma loop_own_snapshot fs current h :
  NoDup (JsMap.keys current) → keyed_by_id h current →
  ∀ suf pre, current = pre ++ suf →
    foldl (fromStore_model P fs current) (h, pre)
      (Cluster_toJSON <$> omap (λ r, h !! r) (JsMap.values suf)) = (h, current).
Proof.
  intros Hnd Hkey. induction suf as [|[k r] suf IH]; intros pre Hcur.
  - simpl. by rewrite Hcur, app_nil_r.
  - assert (Hin : (k, r) ∈ current).
    { rewrite Hcur. apply elem_of_app. right. apply list_elem_of_here. }
    destruct (Hkey k r Hin) as (c & Hc & Hid).
    simpl. rewrite Hc. simpl. change (Cluster_toJSON c) with (model c). rewrite Hid.
    rewrite (JsMapFacts.elem_get k r current); [|done..].
    rewrite (alter_fixed _ h r c); [|done|apply updateModel_toJSON].
    rewrite JsMapFacts.set_absent.
    + apply IH. by rewrite Hcur, <- app_assoc.
    + rewrite Hcur in Hnd. unfold JsMap.keys in *. rewrite fmap_app in Hnd.
      apply NoDup_app in Hnd as (_ & Hdis & _). intros Hk. apply (Hdis k Hk).
      simpl. apply list_elem_of_here.
Qed.

Lemma fromStore_own_snapshot w :
  registry_wf w →
  foldl (fromStore_model P (disk w) (clusters w)) (objects w, [])
    (default [] (sm_clusters (toJSON w))) = (objects w, clusters w).
Proof.
  intros [Hnd Hkey]. unfold toJSON, clustersList, deref. simpl.
  by apply (loop_own_snapshot (disk w) (clusters w) (objects w) Hnd Hkey (clusters w) []).
Qed.
End roundtrip.

(** ** Well-formed registries are what the operations produce *)
Section registry_wf_preserved.
Variable P : Platform.

Lemma elem_of_set (k k0 : string) (r v : nat) (m : list (string * nat)) :
  (k, r) ∈ JsMap.set k0 v m → (k = k0 ∧ r = v) ∨ (k, r) ∈ m.
Proof.
  induction m as [|[k' v'] m IH]; simpl.
  - intros H. apply list_elem_of_singleton in H as [= -> ->]. by left.
  - destruct (decide (k' = k0)) as [->|Hne]; intros H;
      apply elem_of_cons in H as [[= -> ->]|H].
    + by left.
    + right. by apply list_elem_of_further.
    + right. apply list_elem_of_here.
    + destruct (IH H) as [?|?]; [by left|]. right. by apply list_elem_of_further.
Qed.

Lemma elem_of_delete (k k0 : string) (r : nat) (m : list (string * nat)) :
  (k, r) ∈ JsMap.delete k0 m → (k, r) ∈ m.
Proof.
  induction m as [|[k' v'] m IH]; simpl; [done|].
  destruct (decide (k' = k0)) as [->|Hne]; intros H.
  - apply list_elem_of_further. auto.
  - apply elem_of_cons in H as [[= -> ->]|H].
    + apply list_elem_of_here.
    + apply list_elem_of_further. auto.
Qed.

Lemma registry_wf_empty : registry_wf emptyWorld.
Proof.
  split; [apply NoDup_nil_2|]. intros k r H. by apply elem_of_nil in H.
Qed.

Lemma registry_wf_setActive clusterId w :
  registry_wf w → registry_wf (setActive clusterId w).
Proof. done. Qed.

Lemma registry_wf_addCluster_model m w :
  registry_wf w → registry_wf (addCluster P (inl m) w).2.
Proof.
  intros [Hnd Hkey]. rewrite addCluster_model. split; simpl.
  - by apply JsMapFacts.NoDup_set.
  - intros k r Hin. apply elem_of_set in Hin as [[-> ->]|Hin].
    + exists (added P (disk w) m). rewrite list_lookup_middle; [|done].
      by rewrite added_model.
    + destruct (Hkey k r Hin) as (c & Hc & Hid). exists c.
      rewrite lookup_app_l; [done|by eapply lookup_lt_Some].
Qed.

Lemma registry_wf_addCluster_instance r w :
  registry_wf w → registry_wf (addCluster P (inr r) w).2.
Proof.
  intros [Hnd Hkey]. destruct (objects w !! r) as [c|] eqn:Hc.
  - rewrite (addCluster_instance P r c); [|done]. split; simpl.
    + by apply JsMapFacts.NoDup_set.
    + assert (Hr : objects w !! r = Some c →
                ∃ c', <[r:=if negb (isManaged c) then set_enabled true c else c]>
                        (objects w) !! r = Some c' ∧ id (model c') = id (model c)).
      { intros _. eexists. rewrite list_lookup_insert_eq; [|by eapply lookup_lt_Some].
        split; [done|]. by destruct (negb _). }
      intros k r' Hin. apply elem_of_set in Hin as [[-> ->]|Hin]; [by apply Hr|].
      destruct (Hkey k r' Hin) as (c' & Hc' & Hid).
      destruct (decide (r' = r)) as [->|Hne].
      * destruct (Hr Hc) as (c'' & Hc'' & Hid''). exists c''. split; [done|]. congruence.
      * exists c'. by rewrite list_lookup_insert_ne.
  - unfold addCluster, deref. simpl. rewrite Hc. simpl. by rewrite Hc.
Qed.

Lemma registry_wf_removeById k w :
  registry_wf w → registry_wf (removeById P k w).2.
Proof.
  intros [Hnd Hkey]. destruct (JsMap.get k (clusters w)) as [r|] eqn:Hr.
  - rewrite (removeById_known P k r); [|done]. split; simpl.
    + by apply JsMapFacts.NoDup_delete.
    + intros k' r' Hin. apply Hkey. by eapply elem_of_delete.
  - by rewrite removeById_unknown.
Qed.

Lemma registry_wf_registerIpcListener_onState k st w :
  registry_wf w → registry_wf (registerIpcListener_onState k st w).
Proof.
  intros [Hnd Hkey]. unfold registerIpcListener_onState, getById.
  destruct (JsMap.get k (clusters w)) as [r|]; [|done].
  split; [done|]. simpl. intros k' r' Hin.
  destruct (Hkey k' r' Hin) as (c & Hc & Hid).
  rewrite list_lookup_alter. destruct (decide (r = r')) as [->|]; [|by exists c].
  rewrite Hc. by exists (setState st c).
Qed.

Lemma loop_NoDup fs current h ms :
  NoDup (JsMap.keys (loop P fs current h ms).2).
Proof.
  induction ms as [|m ms IH] using rev_ind; [apply NoDup_nil_2|].
  rewrite loop_snoc. destruct (loop P fs current h ms) as [h' new].
  unfold fromStore_model. simpl in *.
  destruct (JsMap.get (id m) current); simpl; by apply JsMapFacts.NoDup_set.
Qed.

Lemma loop_keyed_new fs current h ms :
  keyed_by_id h current →
  keyed_by_id (loop P fs current h ms).1 (loop P fs current h ms).2
  ∧ ∀ k r, (k, r) ∈ (loop P fs current h ms).2 → (r < length h)%nat → (k, r) ∈ current.
Proof.
  intros Hkey. induction ms as [|m ms [IH1 IH2]] using rev_ind.
  - split; intros k r H; by apply elem_of_nil in H.
  - rewrite loop_snoc. pose proof (loop_length P fs current h ms) as Hlen.
    destruct (loop P fs current h ms) as [h' new].
    unfold fromStore_model. simpl in *.
    destruct (JsMap.get (id m) current) as [r'|] eqn:Hm; simpl.
    + apply JsMapFacts.get_Some_elem in Hm.
      destruct (Hkey _ _ Hm) as (c0 & Hc0 & _).
      assert (Hr' : (r' < length h)%nat) by by eapply lookup_lt_Some.
      split.
      * intros k r Hin. rewrite list_lookup_alter.
        apply elem_of_set in Hin as [[-> ->]|Hin].
        -- rewrite decide_True; [|done].
           destruct (lookup_lt_is_Some_2 h' r') as [c Hc]; [lia|].
           rewrite Hc. by exists (updateModel m c).
        -- destruct (IH1 k r Hin) as (c & Hc & Hid).
           destruct (decide (r' = r)) as [->|Hne]; [|by exists c].
           rewrite Hc. exists (updateModel m c). split; [done|]. simpl.
           apply (keyed_injective h current (id m) k r); [done..|].
           by apply IH2.
      * intros k r Hin Hr. apply elem_of_set in Hin as [[-> ->]|Hin]; [done|].
        by apply IH2.
    + split.
      * intros k r Hin. apply elem_of_set in Hin as [[-> ->]|Hin].
        -- rewrite list_lookup_middle; [|done]. eexists. split; [done|].
           by destruct (negb _ && _).
        -- destruct (IH1 k r Hin) as (c & Hc & Hid). exists c.
           rewrite lookup_app_l; [done|by eapply lookup_lt_Some].
      * intros k r Hin Hr. apply elem_of_set in Hin as [[-> ->]|Hin]; [lia|].
        by apply IH2.
Qed.

Lemma registry_wf_fromStore data w :
  registry_wf w → registry_wf (fromStore P data w).
Proof.
  intros [Hnd Hkey]. rewrite fromStore_unfold. cbv zeta. split; simpl.
  - apply loop_NoDup.
  - by apply loop_keyed_new.
Qed.
End registry_wf_preserved.

Lemma step_wf P w w' : step P w w' → registry_wf w → registry_wf w'.
Proof.
  destruct 1 as [k w|[m|r] w|k w|data w|k st w|fs w]; intros Hwf.
  - by apply registry_wf_setActive.
  - by apply registry_wf_addCluster_model.
  - by apply registry_wf_addCluster_instance.
  - by apply registry_wf_removeById.
  - by apply registry_wf_fromStore.
  - by apply registry_wf_registerIpcListener_onState.
  - exact Hwf.
Qed.

Lemma reachable_wf P w : reachable P w → registry_wf w.
Proof.
  unfold reachable. revert w. apply rtc_ind_r.
  - apply registry_wf_empty.
  - intros w2 w3 _ Hstep IH. by eapply step_wf.
Qed.

(** ** C5: clusters whose configuration context does not resolve *)
Section unresolvable.
Variable P : Platform.

(** [fromStore] leaves a cluster it constructs disabled when its context
    does not resolve to an API URL. *)
Lemma fromStore_model_guards_apiUrl fs current h new m :
  JsMap.get (id m) current = None →
  truthy (resolveApiUrl P fs m) = false →
  fromStore_model P fs current (h, new) m =
    (h ++ [new_Cluster P fs m], JsMap.set (id m) (length h) new)
  ∧ enabled (new_Cluster P fs m) = false.
Proof.
  intros Hm Hurl. unfold fromStore_model. rewrite Hm. simpl.
  rewrite Hurl. by rewrite andb_false_r.
Qed.

(** [fromStore] does not touch the enabled flag of a cluster it updates. *)
Lemma fromStore_model_keeps_enabled fs current h new m r :
  JsMap.get (id m) current = Some r →
  enabled <$> (fromStore_model P fs current (h, new) m).1 !! r = enabled <$> h !! r.
Proof.
  intros Hm. unfold fromStore_model. rewrite Hm. simpl.
  rewrite list_lookup_alter_eq. by destruct (h !! r).
Qed.

(** [addCluster] has no such guard: a model without owner-reference is
    enabled whatever its context resolves to. *)
Lemma addCluster_ignores_apiUrl m w :
  truthy (ownerRef m) = false →
  enabledOf (addCluster P (inl m) w).2 (addCluster P (inl m) w).1 = Some true
  ∧ (apiUrl <$> objects (addCluster P (inl m) w).2 !! (addCluster P (inl m) w).1)
      = Some (resolveApiUrl P (disk w) m).
Proof.
  intros Hm. unfold enabledOf. rewrite addCluster_model. simpl.
  rewrite list_lookup_middle; [|done]. simpl.
  rewrite added_enabled, Hm. split; [done|].
  unfold added. by destruct (negb _).
Qed.
End unresolvable.

Module ScenarioFacts.
Import Scenario.

Lemma installed_wf : registry_wf installed.
Proof. exact registry_wf_empty. Qed.

Lemma running_wf : registry_wf running.
Proof.
  apply registry_wf_setActive.
  do 2 apply registry_wf_addCluster_model. exact installed_wf.
Qed.

Lemma stale_wf : registry_wf stale.
Proof. apply registry_wf_addCluster_model. exact running_wf. Qed.

Lemma running_reachable : reachable P running.
Proof.
  unfold reachable, running.
  eapply rtc_r; [|apply step_setActive].
  eapply rtc_r; [|apply (step_addCluster P (inl dev))].
  eapply rtc_r; [|apply (step_addCluster P (inl prod))].
  eapply rtc_r; [apply rtc_refl|apply (step_disk P pasted.2)].
Qed.

Lemma stale_reachable : reachable P stale.
Proof.
  eapply rtc_r; [exact running_reachable|apply (step_addCluster P (inl prod_managed))].
Qed.

Lemma running_active_enabled : active_enabled running.
Proof.
  intros a Ha. apply setActive_Some_inv in Ha as [_ He]. destruct He as (r & c & Hr & Hc & He).
  exists r, c. done.
Qed.
End ScenarioFacts.

(** C5. [addCluster] enables a cluster whose context name is empty, so whose
    API URL does not resolve, while [fromStore] on the same model and the
    same disk leaves it disabled. *)
Theorem addCluster_enables_unresolvable_context :
  contextName Scenario.broken = Some ""
  ∧ ownerRef Scenario.broken = None
  ∧ is_Some (disk Scenario.installed !! kubeConfigPath Scenario.broken)
  ∧ resolveApiUrl Scenario.P (disk Scenario.installed) Scenario.broken = None
  ∧ enabledOf (addCluster Scenario.P (inl Scenario.broken) Scenario.installed).2
      (addCluster Scenario.P (inl Scenario.broken) Scenario.installed).1 = Some true
  ∧ (enabled <$> clustersList
       (fromStore Scenario.P {| sm_activeCluster := None; sm_clusters := Some [Scenario.broken] |}
          Scenario.installed)) = [false].
Proof. split_and!; try reflexivity. by eexists. Qed.

(** ** The theorems at work on the scenarios *)

Lemma addCluster_enabled_unless_managed_witness :
  enabledOf (addCluster Scenario.P (inl Scenario.prod) Scenario.installed).2
    (addCluster Scenario.P (inl Scenario.prod) Scenario.installed).1 = Some true
  ∧ enabledOf (addCluster Scenario.P (inl Scenario.prod_managed) Scenario.installed).2
      (addCluster Scenario.P (inl Scenario.prod_managed) Scenario.installed).1 = Some false
  ∧ enabledOf (addCluster Scenario.P (inr 0%nat) Scenario.stale).2
      (addCluster Scenario.P (inr 0%nat) Scenario.stale).1 = Some true
  ∧ enabledOf (addCluster Scenario.P (inr 2%nat) Scenario.stale).2
      (addCluster Scenario.P (inr 2%nat) Scenario.stale).1 = Some false.
Proof.
  destruct (addCluster_enabled_unless_managed Scenario.P Scenario.installed) as (Ha & Hb & _).
  destruct (addCluster_enabled_unless_managed Scenario.P Scenario.stale) as (_ & _ & Hc & Hd).
  split_and!.
  - apply Ha. reflexivity.
  - destruct (Hb Scenario.prod_managed) as [Hb1 Hb2]; [reflexivity|]. by rewrite Hb1, Hb2.
  - eapply Hc; reflexivity.
  - eapply eq_trans; [eapply (Hd 2%nat); reflexivity|reflexivity].
Defined.


Lemma removeById_removes_witness :
  JsMap.get "c1" (clusters Scenario.running) = Some 0%nat
  ∧ is_Some (disk Scenario.running !! getCustomKubeConfigPath Scenario.P "c1")
  ∧ JsMap.get "c1" (clusters (removeById Scenario.P "c1" Scenario.running).2) = None
  ∧ activeCluster (removeById Scenario.P "c1" Scenario.running).2 = None
  ∧ disk (removeById Scenario.P "c1" Scenario.running).2 !! getCustomKubeConfigPath Scenario.P "c1" = None
  ∧ removeById Scenario.P "c9" Scenario.running
      = (Fulfilled tt, emit (AppEventOf "cluster" "remove") Scenario.running).
Proof.
  assert (Hr : JsMap.get "c1" (clusters Scenario.running) = Some 0%nat) by reflexivity.
  destruct (removeById_removes Scenario.P Scenario.running "c1") as (Hknown & _ & _).
  destruct (Hknown 0%nat Hr) as (Hgone & _ & Hact & _ & Hfile & _).
  destruct (removeById_removes Scenario.P Scenario.running "c9") as (_ & Hunknown & _).
  split_and!.
  - exact Hr.
  - by eexists.
  - exact Hgone.
  - apply Hact. reflexivity.
  - refine (proj1 (Hfile _ _ _)); reflexivity.
  - apply Hunknown. reflexivity.
Defined.

Lemma state_applied_by_identifier_witness :
  JsMap.get "c1" (clusters Scenario.running) = Some 0%nat
  ∧ (state <$> objects (registerIpcListener_onState "c1" Scenario.connected Scenario.running) !! 0%nat)
      = Some Scenario.connected
  ∧ JsMap.get "c9" (clusters Scenario.running) = None
  ∧ registerIpcListener_onState "c9" Scenario.connected Scenario.running = Scenario.running
  ∧ load_renderer [("c9", Scenario.connected); ("c8", Scenario.connected)] Scenario.running = Scenario.running.
Proof.
  assert (H1 : JsMap.get "c1" (clusters Scenario.running) = Some 0%nat) by reflexivity.
  assert (H9 : JsMap.get "c9" (clusters Scenario.running) = None) by reflexivity.
  destruct (state_applied_by_identifier Scenario.running "c1" Scenario.connected) as (Hknown & _ & _).
  destruct (state_applied_by_identifier Scenario.running "c9" Scenario.connected)
    as (_ & Hunknown & Hall).
  destruct (Hknown 0%nat H1) as (Hobj & _).
  split_and!.
  - exact H1.
  - rewrite Hobj. reflexivity.
  - exact H9.
  - exact (proj1 (Hunknown H9)).
  - apply Hall. repeat constructor.
Defined.

Lemma fromStore_reconciles_witness :
  let live := registerIpcListener_onState "c1" Scenario.connected Scenario.running in
  let data := {| sm_activeCluster := Some "c1";
                 sm_clusters := Some [Scenario.bare "c1" Scenario.pasted.1 (Some "staging") None;
                                      Scenario.broken] |} in
  registry_wf live
  ∧ JsMap.get "c2" (removedClusters (fromStore Scenario.P data live)) = Some 1%nat
  ∧ JsMap.get "c2" (clusters (fromStore Scenario.P data live)) = None
  ∧ JsMap.get "c1" (clusters (fromStore Scenario.P data live)) = Some 0%nat
  ∧ (state <$> objects (fromStore Scenario.P data live) !! 0%nat) = Some Scenario.connected
  ∧ (contextName ∘ model <$> objects (fromStore Scenario.P data live) !! 0%nat)
      = Some (Some "staging")
  ∧ activeCluster (fromStore Scenario.P data live) = Some "c1".
Proof.
  intros live data.
  assert (Hwf : registry_wf live).
  { apply registry_wf_registerIpcListener_onState. exact ScenarioFacts.running_wf. }
  destruct (fromStore_reconciles Scenario.P data live Hwf) as (Hout & Hin & Hact & _).
  destruct (Hout "c2" 1%nat) as (Hrem & Hgone & _); [reflexivity|compute_done|].
  destruct (Hin "c1" 0%nat) as (Hkept & _ & Hobj & Hstate & _); [reflexivity|compute_done|].
  split_and!.
  - exact Hwf.
  - exact Hrem.
  - exact Hgone.
  - exact Hkept.
  - rewrite Hstate. reflexivity.
  - rewrite Hobj. reflexivity.
  - apply Hact; [reflexivity|]. eexists 0%nat, _. split_and!; reflexivity.
Defined.

(** The round trip of C7 does not hold for every registry state. On the
    registry reached by adding "c1", making it active and adding an
    owner-managed model under "c1", the active identifier is "c1" before the
    round trip and none after it; and the snapshot of a registry with an
    owner-managed cluster that its owner enabled, reloaded into an empty
    registry over the same disk, gives that cluster disabled. *)
Lemma roundtrip_needs_enabled_active :
  reachable Scenario.P Scenario.stale
  ∧ registry_wf Scenario.stale
  ∧ activeCluster Scenario.stale = Some "c1"
  ∧ activeCluster (fromStore Scenario.P (toJSON Scenario.stale) Scenario.stale) = None
  ∧ activeCluster (fromStore Scenario.P (toJSON Scenario.stale) Scenario.stale)
      ≠ activeCluster Scenario.stale
  ∧ (enabled <$> clustersList Scenario.owned) = [true]
  ∧ (enabled <$> clustersList
       (fromStore Scenario.P (toJSON Scenario.owned) Scenario.installed)) = [false].
Proof.
  split_and!;
    [exact ScenarioFacts.stale_reachable|exact ScenarioFacts.stale_wf
    |reflexivity|reflexivity|discriminate|reflexivity..].
Qed.

(** ** Hosts of cluster frames *)
Section hosts.
Implicit Types (s a b : string) (sep : ascii).

Lemma split_nonempty sep s : split sep s ≠ [].
Proof.
  destruct s as [|c s]; simpl; [done|].
  destruct (decide (c = sep)); [done|]. by destruct (split sep s).
Qed.

Lemma split_free sep s : free_of sep s → split sep s = [s].
Proof.
  induction s as [|c s IH]; simpl; [done|].
  intros [Hc Hs]. rewrite decide_False; [|done]. by rewrite IH.
Qed.

Lemma split_app sep a b :
  split sep (a +:+ String sep b) = match split sep a with
                                   | [] => split sep b
                                   | word :: words => word :: words ++ split sep b
                                   end.
Proof.
  induction a as [|c a IH]; simpl.
  - by rewrite decide_True.
  - destruct (decide (c = sep)) as [->|Hne].
    + rewrite IH. pose proof (split_nonempty sep a). by destruct (split sep a).
    + rewrite IH. pose proof (split_nonempty sep a). by destruct (split sep a).
Qed.

Lemma split_app_free sep a b :
  free_of sep a → split sep (a +:+ String sep b) = a :: split sep b.
Proof. intros Ha. by rewrite split_app, split_free. Qed.

Lemma free_of_app sep a b : free_of sep a → free_of sep b → free_of sep (a +:+ b).
Proof.
  induction a as [|c a IH]; simpl; [done|]. intros [Hc Ha] Hb. split; [done|by apply IH].
Qed.

Lemma append_assoc a b c : (a +:+ b) +:+ c = a +:+ (b +:+ c).
Proof.
  induction a as [|x a IH]; [done|].
  change (String x ((a +:+ b) +:+ c) = String x (a +:+ (b +:+ c))). by rewrite IH.
Qed.

Lemma js_slice_before_last {A : Type} (l : list A) (x y : A) :
  js_slice (-2) (-1) (l ++ [x; y]) = [x].
Proof.
  unfold js_slice. rewrite length_app. simpl length.
  rewrite !decide_True by lia.
  match goal with
  | |- take ?n (drop ?k _) = _ =>
      replace n with 1%nat by lia; replace k with (length l) by lia
  end.
  by rewrite drop_app_length.
Qed.

Lemma js_slice_single {A : Type} (x : A) : js_slice (-2) (-1) [x] = [].
Proof. reflexivity. Qed.

Lemma head_split_port sep a b : free_of sep a → head (split sep (a +:+ String sep b)) = Some a.
Proof. intros Ha. by rewrite split_app_free. Qed.
End hosts.

Lemma append_cons (c : ascii) (a b : string) : String c a +:+ b = String c (a +:+ b).
Proof. reflexivity. Qed.

Lemma append_nil_l (a : string) : "" +:+ a = a.
Proof. reflexivity. Qed.

Ltac norm_append :=
  repeat (rewrite append_assoc || rewrite append_cons || rewrite append_nil_l).

Lemma host_shape (a b rest : string) :
  a +:+ "." +:+ b +:+ ":" +:+ rest = (a +:+ String "." b) +:+ String ":" rest.
Proof. by norm_append. Qed.

Ltac free_of_tac := simpl; repeat split; discriminate.

Lemma frame_host_id (k name port : string) :
  free_of "." k → free_of ":" k → free_of "." name → free_of ":" name →
  getClusterIdFromHost (k +:+ "." +:+ name +:+ ":" +:+ port) = Some k.
Proof.
  intros Hk1 Hk2 Hn1 Hn2.
  unfold getClusterIdFromHost. rewrite host_shape, head_split_port.
  - simpl. rewrite split_app_free; [|done]. rewrite split_free; [|done]. reflexivity.
  - apply free_of_app; [done|]. simpl. split; [discriminate|done].
Qed.

Lemma plain_host_id (name port : string) :
  free_of ":" name →
  getClusterIdFromHost (name +:+ ":" +:+ port) = getClusterIdFromHost name
  ∧ (free_of "." name → getClusterIdFromHost name = None).
Proof.
  intros Hn. unfold getClusterIdFromHost.
  change (":" +:+ port) with (String ":" port).
  rewrite head_split_port; [|done]. rewrite (split_free ":" name); [|done].
  split; [done|]. intros Hd. simpl. by rewrite split_free.
Qed.

(** X1. The host of the frame URL of a cluster gives the cluster identifier
    back, when neither the identifier nor the name of the host has a dot or
    a colon; the port is free. *)
Theorem getClusterIdFromHost_of_frame_url (k name port : string) :
  free_of "." k → free_of ":" k → free_of "." name → free_of ":" name →
  getClusterFrameUrl (name +:+ ":" +:+ port) k
    = "//" +:+ (k +:+ "." +:+ name +:+ ":" +:+ port)
  ∧ getClusterIdFromHost (k +:+ "." +:+ name +:+ ":" +:+ port) = Some k.
Proof. intros Hk1 Hk2 Hn1 Hn2. split; [done|by apply frame_host_id]. Qed.

Lemma getClusterIdFromHost_of_frame_url_witness :
  getClusterIdFromHost "c1.localhost:45345" = Some "c1".
Proof.
  refine (proj2 (getClusterIdFromHost_of_frame_url "c1" "localhost" "45345" _ _ _ _));
    free_of_tac.
Defined.

(** X2. A host without a dot before its port has no cluster identifier, and
    the port never matters. *)
Theorem getClusterIdFromHost_without_subdomain (name port : string) :
  free_of ":" name →
  getClusterIdFromHost (name +:+ ":" +:+ port) = getClusterIdFromHost name
  ∧ (free_of "." name → getClusterIdFromHost name = None).
Proof. apply plain_host_id. Qed.

Lemma getClusterIdFromHost_without_subdomain_witness :
  getClusterIdFromHost "localhost:9000" = None.
Proof.
  destruct (getClusterIdFromHost_without_subdomain "localhost" "9000") as [Hp Hn];
    [free_of_tac|].
  change (getClusterIdFromHost ("localhost" +:+ ":" +:+ "9000") = None).
  rewrite Hp. apply Hn. free_of_tac.
Defined.

(** X3. Of a host with more than two labels the identifier is the label
    before the last one, whatever stands in front of it. *)
Theorem getClusterIdFromHost_label_before_last (pre x y port : string) :
  free_of ":" pre → free_of "." x → free_of ":" x → free_of "." y → free_of ":" y →
  getClusterIdFromHost (pre +:+ "." +:+ x +:+ "." +:+ y +:+ ":" +:+ port) = Some x.
Proof.
  intros Hp Hx1 Hx2 Hy1 Hy2. unfold getClusterIdFromHost.
  replace (pre +:+ "." +:+ x +:+ "." +:+ y +:+ ":" +:+ port)
    with ((pre +:+ String "." (x +:+ String "." y)) +:+ String ":" port).
  2:{ by norm_append. }
  rewrite head_split_port.
  - simpl. rewrite split_app. rewrite (split_app_free "." x y); [|done].
    rewrite (split_free "." y); [|done].
    pose proof (split_nonempty "." pre) as Hne.
    destruct (split "." pre) as [|word words] eqn:E; [done|].
    change (word :: words ++ [x; y]) with ((word :: words) ++ [x; y]).
    by rewrite js_slice_before_last.
  - apply free_of_app; [done|]. simpl. split; [discriminate|].
    apply free_of_app; [done|]. simpl. split; [discriminate|done].
Qed.

Lemma getClusterIdFromHost_label_before_last_witness :
  getClusterIdFromHost "c1.127.0.0.1:9000" = Some "0".
Proof.
  refine (getClusterIdFromHost_label_before_last "c1.127.0" "0" "1" "9000" _ _ _ _ _);
    free_of_tac.
Defined.

(** X4. In a frame whose host is the identifier of a cluster in front of the
    host of the application, the hosted cluster is the registry's cluster of
    that identifier; in the frame of the application itself there is none. *)
Theorem getHostedCluster_of_frame (k name port : string) (w : World) :
  free_of "." k → free_of ":" k → free_of "." name → free_of ":" name →
  getHostedCluster (k +:+ "." +:+ name +:+ ":" +:+ port) w = JsMap.get k (clusters w)
  ∧ getHostedCluster (name +:+ ":" +:+ port) w = None.
Proof.
  intros Hk1 Hk2 Hn1 Hn2. unfold getHostedCluster, getHostedClusterId. split.
  - by rewrite frame_host_id.
  - destruct (plain_host_id name port) as [-> ->]; done.
Qed.

Lemma getHostedCluster_of_frame_witness :
  getHostedCluster "c2.localhost:45345" Scenario.running = Some 1%nat
  ∧ getHostedCluster "localhost:45345" Scenario.running = None.
Proof.
  refine (getHostedCluster_of_frame "c2" "localhost" "45345" Scenario.running _ _ _ _);
    free_of_tac.
Defined.

(** ** The window manager *)

(** X5. [hide()] hides the windows that are not destroyed when both exist.
    Without a main window it raises a TypeError and changes nothing; with a
    main window and no splash window it hides the main window and then
    raises a TypeError. *)
Theorem hide_needs_both_windows (wm : WindowManager) :
  (∀ m s, mainWindow wm = Some m → splashWindow wm = Some s →
     (hide wm).1 = inr tt
     ∧ mainWindow (hide wm).2 = Some (if bw_destroyed m then m else BrowserWindow_hide m)
     ∧ splashWindow (hide wm).2 = Some (if bw_destroyed s then s else BrowserWindow_hide s))
  ∧ (mainWindow wm = None → hide wm = (inl TypeError, wm))
  ∧ (∀ m, mainWindow wm = Some m → splashWindow wm = None →
     (hide wm).1 = inl TypeError
     ∧ mainWindow (hide wm).2 = Some (if bw_destroyed m then m else BrowserWindow_hide m)).
Proof.
  destruct wm as [main splash a]. unfold hide. simpl. split_and!.
  - intros m s -> ->. destruct (bw_destroyed m); simpl;
      destruct (bw_destroyed s); simpl; done.
  - by intros ->.
  - intros m -> ->. destruct (bw_destroyed m); simpl; done.
Qed.

Lemma hide_needs_both_windows_witness :
  hide {| mainWindow := Some {| bw_destroyed := false; bw_visible := true |};
          splashWindow := None; wm_activeClusterId := Some "c1" |}
  = (inl TypeError,
     {| mainWindow := Some {| bw_destroyed := false; bw_visible := false |};
        splashWindow := None; wm_activeClusterId := Some "c1" |}).
Proof.
  destruct (hide_needs_both_windows
              {| mainWindow := Some {| bw_destroyed := false; bw_visible := true |};
                 splashWindow := None; wm_activeClusterId := Some "c1" |})
    as (_ & _ & H).
  destruct (H _ eq_refl eq_refl) as [_ _]. reflexivity.
Defined.

(** ** Invariants of the reachable worlds *)
Section reachable_invariants.
Variable P : Platform.

Lemma keys_set_mono (k k' : string) (v : nat) (m : list (string * nat)) :
  k' ∈ JsMap.keys m → k' ∈ JsMap.keys (JsMap.set k v m).
Proof.
  intros Hin. destruct (decide (k ∈ JsMap.keys m)) as [Hk|Hk].
  - by rewrite JsMapFacts.keys_set_present.
  - rewrite JsMapFacts.set_absent; [|done]. unfold JsMap.keys in *.
    rewrite fmap_app. apply elem_of_app. by left.
Qed.

Lemma keys_delete_ne (k k' : string) (m : list (string * nat)) :
  k' ∈ JsMap.keys m → k' ≠ k → k' ∈ JsMap.keys (JsMap.delete k m).
Proof.
  intros Hin Hne. destruct (decide (k' ∈ JsMap.keys (JsMap.delete k m))) as [|Hn]; [done|].
  apply JsMapFacts.get_None in Hn. rewrite JsMapFacts.get_delete_ne in Hn; [|done].
  apply JsMapFacts.get_None in Hn. done.
Qed.

Lemma get_is_key (k : string) (r : nat) (m : list (string * nat)) :
  JsMap.get k m = Some r → k ∈ JsMap.keys m.
Proof.
  intros Hk. destruct (decide (k ∈ JsMap.keys m)) as [|Hn]; [done|].
  apply JsMapFacts.get_None in Hn. congruence.
Qed.

Lemma addCluster_frame arg w :
  activeCluster (addCluster P arg w).2 = activeCluster w
  ∧ disk (addCluster P arg w).2 = disk w
  ∧ removedClusters (addCluster P arg w).2 = removedClusters w
  ∧ (∀ k, k ∈ JsMap.keys (clusters w) → k ∈ JsMap.keys (clusters (addCluster P arg w).2)).
Proof.
  destruct arg as [m|r].
  - rewrite addCluster_model. simpl. split_and!; try done.
    intros k Hk. by apply keys_set_mono.
  - destruct (objects w !! r) as [c|] eqn:Hc.
    + rewrite (addCluster_instance P r c); [|done]. simpl. split_and!; try done.
      intros k Hk. by apply keys_set_mono.
    + unfold addCluster, deref. simpl. rewrite Hc. simpl. by rewrite Hc.
Qed.

Lemma step_active_known w w' : step P w w' → active_known w → active_known w'.
Proof.
  destruct 1 as [k w|arg w|k w|data w|k st w|fs w]; intros Hact a Ha.
  - apply setActive_Some_inv in Ha as [_ (r & c & Hr & _)]. by eapply get_is_key.
  - destruct (addCluster_frame arg w) as (Hsame & _ & _ & Hkeys).
    rewrite Hsame in Ha. by apply Hkeys, Hact.
  - destruct (JsMap.get k (clusters w)) as [r|] eqn:Hr.
    + rewrite (removeById_known P k r) in Ha |- *; [|done..]. simpl in *.
      destruct (decide (activeCluster w = Some k)) as [|Hne]; [done|].
      apply keys_delete_ne; [by apply Hact|]. intros ->. by apply Hne.
    + rewrite removeById_unknown in Ha |- *; [|done..]. by apply Hact.
  - apply fromStore_active_Some in Ha as [_ (r & c & Hr & _)]. by eapply get_is_key.
  - unfold registerIpcListener_onState, getById in *.
    destruct (JsMap.get k (clusters w)); by apply Hact.
  - by apply Hact.
Qed.
End reachable_invariants.

(** X6. In every world the operations lead to, no identifier occurs twice
    in the registry, and the cluster found under an identifier is a live
    object that carries that identifier. *)
Theorem registry_entries_keyed_by_id (P : Platform) (w : World) :
  reachable P w →
  NoDup (JsMap.keys (clusters w))
  ∧ ∀ k r, getById k w = Some r → ∃ c, objects w !! r = Some c ∧ id (model c) = k.
Proof.
  unfold reachable. revert w. apply rtc_ind_r.
  - split; [apply NoDup_nil_2|]. intros k r Hk. discriminate.
  - intros w2 w3 _ Hstep [Hnd Hkey].
    assert (Hwf : registry_wf w2).
    { split; [done|]. intros k r Hin. apply Hkey. unfold getById.
      by apply JsMapFacts.elem_get. }
    destruct (step_wf P w2 w3 Hstep Hwf) as [Hnd3 Hkey3]. split; [done|].
    intros k r Hk. apply Hkey3. by apply JsMapFacts.get_Some_elem.
Qed.

Lemma registry_entries_keyed_by_id_witness :
  reachable Scenario.P Scenario.stale
  ∧ NoDup (JsMap.keys (clusters Scenario.stale))
  ∧ ∃ c, objects Scenario.stale !! 2%nat = Some c ∧ id (model c) = "c1".
Proof.
  destruct (registry_entries_keyed_by_id Scenario.P Scenario.stale
              ScenarioFacts.stale_reachable) as [Hnd Hkey].
  split_and!; [exact ScenarioFacts.stale_reachable|exact Hnd|].
  apply Hkey. reflexivity.
Defined.

(** X7. In every world the operations lead to, the active identifier, if
    set, is an identifier of the registry, so the [active] getter finds a
    cluster. *)
Theorem active_identifier_is_known (P : Platform) (w : World) :
  reachable P w →
  ∀ a, activeCluster w = Some a → a ∈ JsMap.keys (clusters w) ∧ is_Some (active w).
Proof.
  intros Hr.
  assert (Hknown : active_known w).
  { revert w Hr. apply rtc_ind_r.
    - intros a Ha. discriminate.
    - intros w2 w3 _ Hstep IH. by eapply step_active_known. }
  intros a Ha. split; [by apply Hknown|].
  unfold active, getById. rewrite Ha. simpl.
  destruct (JsMap.get a (clusters w)) eqn:E; [by eexists|].
  apply JsMapFacts.get_None in E. destruct E. by apply Hknown.
Qed.

Lemma active_identifier_is_known_witness :
  reachable Scenario.P Scenario.stale
  ∧ activeCluster Scenario.stale = Some "c1"
  ∧ "c1" ∈ JsMap.keys (clusters Scenario.stale)
  ∧ is_Some (active Scenario.stale).
Proof.
  destruct (active_identifier_is_known Scenario.P Scenario.stale
              ScenarioFacts.stale_reachable "c1" eq_refl) as [Hin Hsome].
  split_and!; [exact ScenarioFacts.stale_reachable|reflexivity|exact Hin|exact Hsome].
Defined.

(** ** How the operations compose *)
Section composition.
Variable P : Platform.

Lemma addClusters_cons arg models w :
  addClusters P (arg :: models) w =
    ((addCluster P arg w).1 :: (addClusters P models (addCluster P arg w).2).1,
     (addClusters P models (addCluster P arg w).2).2).
Proof.
  simpl. destruct (addCluster P arg w) as [c w1]. simpl.
  by destruct (addClusters P models w1).
Qed.

Lemma addCluster_model_registered m w :
  id m ∈ JsMap.keys (clusters (addCluster P (inl m) w).2).
Proof. rewrite addCluster_model. simpl. apply JsMapFacts.keys_set. Qed.

Lemma registry_wf_addCluster arg w : registry_wf w → registry_wf (addCluster P arg w).2.
Proof.
  destruct arg; [apply registry_wf_addCluster_model|apply registry_wf_addCluster_instance].
Qed.
End composition.

(** X8. [addClusters] returns one cluster for each model, and afterwards
    every model's identifier is in the registry and no identifier that was
    there is lost; the active identifier and the disk are not touched, and a
    well-formed registry stays well-formed. *)
Theorem addClusters_registers_all (P : Platform) (models : list (ClusterModel + nat))
    (w : World) :
  length (addClusters P models w).1 = length models
  ∧ (∀ m, inl m ∈ models → id m ∈ JsMap.keys (clusters (addClusters P models w).2))
  ∧ (∀ k, k ∈ JsMap.keys (clusters w) → k ∈ JsMap.keys (clusters (addClusters P models w).2))
  ∧ activeCluster (addClusters P models w).2 = activeCluster w
  ∧ disk (addClusters P models w).2 = disk w
  ∧ (registry_wf w → registry_wf (addClusters P models w).2).
Proof.
  revert w. induction models as [|arg models IH]; intros w.
  - split_and!; try done. intros m Hm. by apply elem_of_nil in Hm.
  - rewrite addClusters_cons. simpl.
    destruct (IH (addCluster P arg w).2) as (Hlen & Hall & Hkeep & Hact & Hdisk & Hwf).
    destruct (addCluster_frame P arg w) as (Hact1 & Hdisk1 & _ & Hkeep1).
    split_and!.
    + by rewrite Hlen.
    + intros m Hm. apply elem_of_cons in Hm as [<-|Hm]; [|by apply Hall].
      apply Hkeep, addCluster_model_registered.
    + intros k Hk. by apply Hkeep, Hkeep1.
    + by rewrite Hact, Hact1.
    + by rewrite Hdisk, Hdisk1.
    + intros Hw. by apply Hwf, registry_wf_addCluster.
Qed.

(** X9. A cluster just added from a model can be made active exactly when
    the model has no owner-reference: [setActive] of its identifier leaves
    the identifier then, and none for an owner-managed model. *)
Theorem addCluster_then_setActive (P : Platform) (m : ClusterModel) (w : World) :
  activeCluster (setActive (Some (id m)) (addCluster P (inl m) w).2)
    = if truthy (ownerRef m) then None else Some (id m).
Proof.
  rewrite addCluster_model. unfold setActive, deref. simpl.
  rewrite JsMapFacts.get_set_eq. simpl.
  rewrite list_lookup_middle; [|done]. simpl.
  rewrite added_enabled. by destruct (truthy (ownerRef m)).
Qed.

(** X10. A pasted kubeconfig that is embedded for an identifier, added as a
    cluster on the returned path and removed again leaves no trace on the
    disk: the file at the private path is gone and every other file is as
    it was, so a disk that had no file there is the same as before. *)
Theorem embed_add_remove_leaves_no_file (P : Platform) (k : ClusterId) (text : string)
    (m : ClusterModel) (w : World) :
  id m = k →
  kubeConfigPath m = (embedCustomKubeConfig P k (inr text) (disk w)).1 →
  let embedded := with_disk (embedCustomKubeConfig P k (inr text) (disk w)).2 w in
  let w' := (removeById P k (addCluster P (inl m) embedded).2).2 in
  disk w' = base.delete (getCustomKubeConfigPath P k) (disk w)
  ∧ (disk w !! getCustomKubeConfigPath P k = None → disk w' = disk w)
  ∧ JsMap.get k (clusters w') = None.
Proof.
  intros <- Hpath. cbv zeta. rewrite addCluster_model.
  rewrite (removeById_known P (id m) (length (objects w)));
    [|simpl; apply JsMapFacts.get_set_eq].
  unfold disk_after. simpl. rewrite list_lookup_middle; [|done].
  rewrite added_model, decide_True; [|done].
  unfold saveToAppFiles. rewrite delete_insert_eq.
  split_and!; [done| |apply JsMapFacts.get_delete_eq].
  intros Hnone. by apply delete_id.
Qed.

Lemma embed_add_remove_leaves_no_file_witness :
  disk (removeById Scenario.P "c1"
          (addCluster Scenario.P (inl Scenario.prod)
             (with_disk (embedCustomKubeConfig Scenario.P "c1"
                           (inr "https://10.0.0.1:6443") (disk emptyWorld)).2
                emptyWorld)).2).2 = ∅.
Proof.
  destruct (embed_add_remove_leaves_no_file Scenario.P "c1" "https://10.0.0.1:6443"
              Scenario.prod emptyWorld eq_refl eq_refl) as (_ & Hsame & _).
  apply Hsame. reflexivity.
Defined.

(** X11. Removing an identifier twice is removing it once: the second call
    fulfils its promise and changes neither the registry, nor the cluster
    objects, nor the active identifier, nor the disk. *)
Theorem removeById_twice (P : Platform) (k : ClusterId) (w : World) :
  let w1 := (removeById P k w).2 in
  let w2 := (removeById P k w1).2 in
  (removeById P k w1).1 = Fulfilled tt
  ∧ clusters w2 = clusters w1
  ∧ objects w2 = objects w1
  ∧ activeCluster w2 = activeCluster w1
  ∧ removedClusters w2 = removedClusters w1
  ∧ disk w2 = disk w1.
Proof.
  cbv zeta.
  assert (Hgone : JsMap.get k (clusters (removeById P k w).2) = None).
  { destruct (JsMap.get k (clusters w)) as [r|] eqn:Hr.
    - rewrite (removeById_known P k r); [|done]. apply JsMapFacts.get_delete_eq.
    - by rewrite removeById_unknown. }
  by rewrite (removeById_unknown P k (removeById P k w).2 Hgone).
Qed.

Lemma deactivate_only_own (k : ClusterId) (w : World) :
  (activeCluster w = Some k → activeCluster (deactivate k w) = None)
  ∧ (activeCluster w ≠ Some k → deactivate k w = w)
  ∧ isActive k (deactivate k w) = false
  ∧ clusters (deactivate k w) = clusters w
  ∧ objects (deactivate k w) = objects w
  ∧ deactivate k (deactivate k w) = deactivate k w.
Proof.
  unfold deactivate, isActive.
  destruct (decide (activeCluster w = Some k)) as [Ha|Ha].
  - rewrite (bool_decide_eq_true_2 _ Ha). simpl. split_and!; done.
  - rewrite (bool_decide_eq_false_2 _ Ha). rewrite (bool_decide_eq_false_2 _ Ha).
    split_and!; done.
Qed.

(** X12. After a cluster was made active, [deactivate] of its identifier
    leaves no active cluster, and [deactivate] of any other identifier
    leaves it active; in both cases the registry entries stay. *)
Theorem setActive_then_deactivate (w : World) (k k' : ClusterId) :
  enabledCluster w k →
  activeCluster (deactivate k (setActive (Some k) w)) = None
  ∧ (k' ≠ k → activeCluster (deactivate k' (setActive (Some k) w)) = Some k)
  ∧ clusters (deactivate k' (setActive (Some k) w)) = clusters w.
Proof.
  intros He. pose proof (setActive_enabled w k He) as Ha.
  destruct (deactivate_only_own k (setActive (Some k) w)) as (Hown & _).
  destruct (deactivate_only_own k' (setActive (Some k) w)) as (_ & Hother & _ & Hc & _).
  split_and!.
  - by apply Hown.
  - intros Hne. rewrite Hother; [done|]. rewrite Ha. congruence.
  - by rewrite Hc.
Qed.

Lemma setActive_then_deactivate_witness :
  enabledCluster Scenario.running "c2"
  ∧ activeCluster (deactivate "c2" (setActive (Some "c2") Scenario.running)) = None
  ∧ activeCluster (deactivate "c1" (setActive (Some "c2") Scenario.running)) = Some "c2".
Proof.
  assert (He : enabledCluster Scenario.running "c2").
  { eexists 1%nat, _. split_and!; reflexivity. }
  destruct (setActive_then_deactivate Scenario.running "c2" "c1" He) as (Hnone & Hkeep & _).
  split_and!; [exact He|exact Hnone|apply Hkeep; discriminate].
Defined.

(** ** The state sync between the main process and a renderer *)
Section state_sync_facts.

Lemma onState_clusters k st w : clusters (registerIpcListener_onState k st w) = clusters w.
Proof. unfold registerIpcListener_onState. by destruct (getById k w). Qed.

Lemma onState_object k st w k' r :
  registry_wf w → JsMap.get k' (clusters w) = Some r →
  objects (registerIpcListener_onState k st w) !! r =
    if decide (k = k') then setState st <$> objects w !! r else objects w !! r.
Proof.
  intros [Hnd Hkey] Hr. unfold registerIpcListener_onState, getById.
  destruct (decide (k = k')) as [->|Hne].
  - rewrite Hr. simpl. apply list_lookup_alter_eq.
  - destruct (JsMap.get k (clusters w)) as [r0|] eqn:Hr0; [|done]. simpl.
    apply list_lookup_alter_ne. intros ->. apply Hne.
    apply JsMapFacts.get_Some_elem in Hr, Hr0.
    by apply (keyed_injective (objects w) (clusters w) k k' r).
Qed.

Lemma load_renderer_get states : ∀ w k r,
  registry_wf w → NoDup (JsMap.keys states) → JsMap.get k (clusters w) = Some r →
  clusters (load_renderer states w) = clusters w
  ∧ objects (load_renderer states w) !! r =
      match JsMap.get k states with
      | Some st => setState st <$> objects w !! r
      | None => objects w !! r
      end.
Proof.
  induction states as [|[k0 st0] states IH]; intros w k r Hwf Hnd Hr; [done|].
  rewrite load_renderer_cons. simpl fst. simpl snd.
  unfold JsMap.keys in Hnd. simpl in Hnd. apply NoDup_cons in Hnd as [Hk0 Hnd].
  destruct (IH (registerIpcListener_onState k0 st0 w) k r) as [Hc Ho].
  { by apply registry_wf_registerIpcListener_onState. }
  { done. }
  { by rewrite onState_clusters. }
  split; [by rewrite Hc, onState_clusters|].
  rewrite Ho, (onState_object k0 st0 w k r); [|done..]. simpl.
  destruct (decide (k0 = k)) as [->|Hne]; [|done].
  assert (JsMap.get k states = None) as -> by by apply JsMapFacts.get_None.
  done.
Qed.

Lemma load_main_entries h (m : list (string * nat)) :
  keyed_by_id h m →
  ((λ c, (id (model c), getState c)) <$> omap (λ r, h !! r) (JsMap.values m)).*1
    = JsMap.keys m
  ∧ ∀ k r c, JsMap.get k m = Some r → h !! r = Some c →
      JsMap.get k ((λ c, (id (model c), getState c)) <$> omap (λ r, h !! r) (JsMap.values m))
        = Some (state c).
Proof.
  induction m as [|[k0 r0] m IH]; intros Hkey; [done|].
  apply keyed_by_id_cons in Hkey as [(c0 & Hc0 & Hid0) Hkey].
  destruct (IH Hkey) as [IHk IHg].
  change (JsMap.values ((k0, r0) :: m)) with (r0 :: JsMap.values m).
  simpl omap. rewrite Hc0. split.
  - change (id (model c0) :: ((λ c, (id (model c), getState c)) <$>
              omap (λ r, h !! r) (JsMap.values m)).*1 = k0 :: JsMap.keys m).
    by rewrite IHk, Hid0.
  - intros k r c Hk Hc. simpl in Hk |- *. rewrite Hid0.
    destruct (decide (k0 = k)) as [->|Hne].
    + injection Hk as <-. rewrite Hc0 in Hc. by injection Hc as <-.
    + by apply (IHg k r c).
Qed.
End state_sync_facts.

Lemma load_main_facts (w : World) :
  registry_wf w →
  (load_main w).*1 = JsMap.keys (clusters w)
  ∧ NoDup (load_main w).*1
  ∧ ∀ k r c, getById k w = Some r → objects w !! r = Some c →
      JsMap.get k (load_main w) = Some (getState c).
Proof.
  intros [Hnd Hkey]. unfold load_main, clustersList, deref, getById.
  destruct (load_main_entries (objects w) (clusters w) Hkey) as [Hk Hg].
  split_and!; [done|by rewrite Hk|done].
Qed.

(** X13. The answer of the main process to a state request lists every
    cluster of a well-formed registry once, in the order of the registry,
    under its identifier and with its connection state. *)
Theorem load_main_lists_every_cluster (w : World) :
  registry_wf w →
  (load_main w).*1 = JsMap.keys (clusters w)
  ∧ NoDup (load_main w).*1
  ∧ ∀ k r c, getById k w = Some r → objects w !! r = Some c →
      JsMap.get k (load_main w) = Some (getState c).
Proof. apply load_main_facts. Qed.

Lemma load_main_lists_every_cluster_witness :
  registry_wf Scenario.running ∧ (load_main Scenario.running).*1 = ["c1"; "c2"].
Proof.
  destruct (load_main_lists_every_cluster Scenario.running ScenarioFacts.running_wf)
    as (Hk & _). split; [exact ScenarioFacts.running_wf|]. rewrite Hk. reflexivity.
Defined.

(** X14. The initial state sync brings a renderer up to the main process:
    after the states answered by the main process are applied, every
    cluster the renderer knows under an identifier of the main process has
    the connection state of the main process's cluster, a cluster the main
    process does not know is left as it is, and the renderer's registry
    entries are unchanged. *)
Theorem load_syncs_renderer_with_main (main renderer : World) :
  registry_wf main → registry_wf renderer →
  let synced := load_renderer (load_main main) renderer in
  clusters synced = clusters renderer
  ∧ (∀ k rm cm rr, getById k main = Some rm → objects main !! rm = Some cm →
       getById k renderer = Some rr →
       (getState <$> objects synced !! rr) = Some (getState cm))
  ∧ (∀ k rr, getById k main = None → getById k renderer = Some rr →
       objects synced !! rr = objects renderer !! rr).
Proof.
  intros Hm Hr. cbv zeta.
  destruct (load_main_facts main Hm) as (Hkeys & Hnd & Hget).
  split_and!.
  - destruct (clusters renderer) as [|[k r] rest] eqn:E.
    + clear Hget. revert Hnd. generalize (load_main main). intros states _.
      assert (Hnone : ∀ k, getById k renderer = None).
      { intros k. unfold getById. by rewrite E. }
      rewrite <- E. clear E.
      induction states as [|cs states IH]; [done|].
      rewrite load_renderer_cons. unfold registerIpcListener_onState.
      by rewrite Hnone.
    + rewrite <- E.
      refine (proj1 (load_renderer_get (load_main main) renderer k r Hr Hnd _)).
      rewrite E. simpl. by rewrite decide_True.
  - intros k rm cm rr Hkm Hcm Hkr.
    destruct (load_renderer_get (load_main main) renderer k rr Hr Hnd Hkr) as [_ ->].
    rewrite (Hget k rm cm Hkm Hcm).
    destruct Hr as [_ Hkey]. apply JsMapFacts.get_Some_elem in Hkr.
    destruct (Hkey k rr Hkr) as (c & -> & _). done.
  - intros k rr Hkm Hkr.
    destruct (load_renderer_get (load_main main) renderer k rr Hr Hnd Hkr) as [_ ->].
    assert (JsMap.get k (load_main main) = None) as ->; [|done].
    apply JsMapFacts.get_None. unfold JsMap.keys. rewrite Hkeys.
    by apply JsMapFacts.get_None.
Qed.

Lemma load_syncs_renderer_with_main_witness :
  let main := registerIpcListener_onState "c1" Scenario.connected Scenario.running in
  registry_wf main
  ∧ registry_wf Scenario.stale
  ∧ (getState <$> objects (load_renderer (load_main main) Scenario.stale) !! 2%nat)
      = Some Scenario.connected.
Proof.
  intros main.
  assert (Hm : registry_wf main).
  { apply registry_wf_registerIpcListener_onState. exact ScenarioFacts.running_wf. }
  destruct (load_syncs_renderer_with_main main Scenario.stale Hm ScenarioFacts.stale_wf)
    as (_ & Hsync & _).
  split_and!; [exact Hm|exact ScenarioFacts.stale_wf|].
  eapply eq_trans; [eapply (Hsync "c1" 0%nat); reflexivity|reflexivity].
Defined.

(** ** More on reloading *)
Section reload_facts.
Variable P : Platform.

Lemma removed_all h (suf : list (string * nat)) : ∀ pre,
  NoDup (JsMap.keys (pre ++ suf)) → keyed_by_id h suf →
  foldl (fromStore_removed h []) pre (JsMap.values suf) = pre ++ suf.
Proof.
  induction suf as [|[k r] suf IH]; intros pre Hnd Hkey.
  - simpl. by rewrite app_nil_r.
  - apply keyed_by_id_cons in Hkey as [(c & Hc & Hid) Hkey].
    simpl. unfold fromStore_removed at 2. rewrite Hc, Hid. simpl.
    rewrite JsMapFacts.set_absent.
    + rewrite IH; [by rewrite <- app_assoc| |done].
      by rewrite <- app_assoc.
    + unfold JsMap.keys in *. rewrite fmap_app in Hnd.
      apply NoDup_app in Hnd as (_ & Hdis & _). intros Hk. apply (Hdis k Hk).
      simpl. apply list_elem_of_here.
Qed.

Lemma removed_none h new (m : list (string * nat)) : ∀ acc,
  keyed_by_id h m → (∀ k, k ∈ JsMap.keys m → k ∈ JsMap.keys new) →
  foldl (fromStore_removed h new) acc (JsMap.values m) = acc.
Proof.
  induction m as [|[k r] m IH]; intros acc Hkey Hin; [done|].
  apply keyed_by_id_cons in Hkey as [(c & Hc & Hid) Hkey].
  simpl. unfold fromStore_removed at 2. rewrite Hc, Hid.
  assert (JsMap.has k new = true) as ->.
  { apply JsMapFacts.has_true, Hin. unfold JsMap.keys. simpl. apply list_elem_of_here. }
  simpl. apply IH; [done|]. intros k' Hk'. apply Hin.
  unfold JsMap.keys in *. simpl. by apply list_elem_of_further.
Qed.

Lemma reloaded_model fs m : model (reloaded P fs m) = m.
Proof. unfold reloaded. by destruct (_ && _). Qed.

Lemma reloaded_enabled fs m :
  enabled (reloaded P fs m) = negb (truthy (ownerRef m)) && truthy (resolveApiUrl P fs m).
Proof. unfold reloaded, isManaged. simpl. by destruct (_ && _). Qed.

Lemma loop_fresh fs current h ms :
  keyed_by_id h current →
  ∀ k r, (k, r) ∈ (loop P fs current h ms).2 → (length h ≤ r)%nat →
    ∃ m, m ∈ ms ∧ id m = k ∧ (loop P fs current h ms).1 !! r = Some (reloaded P fs m).
Proof.
  intros Hkey. induction ms as [|m ms IH] using rev_ind.
  - intros k r Hin. by apply elem_of_nil in Hin.
  - intros k r. rewrite loop_snoc.
    pose proof (loop_length P fs current h ms) as Hlen.
    destruct (loop_keyed_new P fs current h ms Hkey) as [Hlive _].
    destruct (loop P fs current h ms) as [h' new].
    unfold fromStore_model. simpl in *.
    destruct (JsMap.get (id m) current) as [r'|] eqn:Hm; simpl.
    + apply JsMapFacts.get_Some_elem in Hm.
      destruct (Hkey _ _ Hm) as (c0 & Hc0 & _).
      assert (Hr' : (r' < length h)%nat) by by eapply lookup_lt_Some.
      intros Hin Hr. apply elem_of_set in Hin as [[-> ->]|Hin]; [lia|].
      destruct (IH k r Hin Hr) as (m' & Hm' & Hid & Hobj).
      exists m'. split_and!; [apply elem_of_app; by left|done|].
      rewrite list_lookup_alter_ne; [done|lia].
    + intros Hin Hr. apply elem_of_set in Hin as [[-> ->]|Hin].
      * exists m. split_and!; [apply elem_of_app; right; apply list_elem_of_here|done|].
        by rewrite list_lookup_middle.
      * destruct (IH k r Hin Hr) as (m' & Hm' & Hid & Hobj).
        exists m'. split_and!; [apply elem_of_app; by left|done|].
        rewrite lookup_app_l; [done|by eapply lookup_lt_Some].
Qed.
End reload_facts.

(** X15. Reloading a snapshot without clusters empties a well-formed
    registry: every cluster moves, in the order of the registry, to the
    removed clusters, the cluster objects are untouched, and the active
    identifier becomes none whatever the snapshot names. *)
Theorem fromStore_empty_snapshot (P : Platform) (data : ClusterStoreModel) (w : World) :
  registry_wf w →
  default [] (sm_clusters data) = [] →
  fromStore P data w =
    {| objects := objects w; activeCluster := None;
       removedClusters := clusters w; clusters := [];
       appEventBus := appEventBus w; disk := disk w |}.
Proof.
  intros [Hnd Hkey] Hempty. rewrite fromStore_unfold. cbv zeta. rewrite Hempty. simpl.
  rewrite (removed_all (objects w) (clusters w) []); [|done..].
  by destruct (sm_activeCluster data).
Qed.

Lemma fromStore_empty_snapshot_witness :
  registry_wf Scenario.running
  ∧ removedClusters (fromStore Scenario.P {| sm_activeCluster := Some "c1"; sm_clusters := None |}
                       Scenario.running) = [("c1", 0%nat); ("c2", 1%nat)]
  ∧ activeCluster (fromStore Scenario.P {| sm_activeCluster := Some "c1"; sm_clusters := None |}
                     Scenario.running) = None.
Proof.
  rewrite (fromStore_empty_snapshot Scenario.P
             {| sm_activeCluster := Some "c1"; sm_clusters := None |} Scenario.running
             ScenarioFacts.running_wf eq_refl).
  split_and!; [exact ScenarioFacts.running_wf|reflexivity|reflexivity].
Defined.

(** X16. A cluster of the snapshot that is not in memory is constructed by
    the reload from a model of the snapshot with its identifier, as a new
    object, and is enabled exactly when that model has no owner-reference
    and its configuration context resolves to an API URL. *)
Theorem fromStore_enables_resolvable_unmanaged (P : Platform) (data : ClusterStoreModel)
    (w : World) (k : ClusterId) :
  registry_wf w →
  getById k w = None →
  k ∈ id <$> default [] (sm_clusters data) →
  ∃ r m,
    getById k (fromStore P data w) = Some r
    ∧ objects w !! r = None
    ∧ m ∈ default [] (sm_clusters data) ∧ id m = k
    ∧ objects (fromStore P data w) !! r = Some (reloaded P (disk w) m)
    ∧ enabledOf (fromStore P data w) r
        = Some (negb (truthy (ownerRef m)) && truthy (resolveApiUrl P (disk w) m)).
Proof.
  intros [Hnd Hkey] Hk Hin. unfold getById, enabledOf in *.
  rewrite fromStore_unfold. cbv zeta. simpl.
  fold (loop P (disk w) (clusters w) (objects w) (default [] (sm_clusters data))).
  destruct (loop_get_new P (disk w) (clusters w) (objects w) _ k Hk Hin) as (r & Hr & Hge & _).
  destruct (loop_fresh P (disk w) (clusters w) (objects w)
              (default [] (sm_clusters data)) Hkey k r) as (m & Hm & Hid & Hobj).
  { by apply JsMapFacts.get_Some_elem. }
  { done. }
  exists r, m. split_and!; try done.
  - by apply lookup_ge_None.
  - rewrite Hobj. simpl. by rewrite reloaded_enabled.
Qed.

Lemma fromStore_enables_resolvable_unmanaged_witness :
  registry_wf Scenario.installed
  ∧ ∃ r m,
      getById "c1" (fromStore Scenario.P
                      {| sm_activeCluster := None;
                         sm_clusters := Some [Scenario.prod; Scenario.broken] |}
                      Scenario.installed) = Some r
      ∧ id m = "c1"
      ∧ enabledOf (fromStore Scenario.P
                     {| sm_activeCluster := None;
                        sm_clusters := Some [Scenario.prod; Scenario.broken] |}
                     Scenario.installed) r
          = Some (negb (truthy (ownerRef m))
                  && truthy (resolveApiUrl Scenario.P (disk Scenario.installed) m)).
Proof.
  split; [exact ScenarioFacts.installed_wf|].
  destruct (fromStore_enables_resolvable_unmanaged Scenario.P
              {| sm_activeCluster := None;
                 sm_clusters := Some [Scenario.prod; Scenario.broken] |}
              Scenario.installed "c1" ScenarioFacts.installed_wf eq_refl)
    as (r & m & Hr & _ & _ & Hid & _ & Hen).
  { compute_done. }
  exists r, m. split_and!; [exact Hr|exact Hid|exact Hen].
Defined.

Section reload_twice.
Variable P : Platform.

Lemma assign_idem {A : Type} (x y : option A) : assign x (assign x y) = assign x y.
Proof. by destruct x. Qed.

Lemma updateModel_idem m c : updateModel m (updateModel m c) = updateModel m c.
Proof. unfold updateModel. simpl. by rewrite !assign_idem. Qed.

Lemma updateModel_own fs m : updateModel m (reloaded P fs m) = reloaded P fs m.
Proof.
  rewrite <- (reloaded_model P fs m) at 1. apply (updateModel_toJSON (reloaded P fs m)).
Qed.

Lemma id_unique (ms : list ClusterModel) x y :
  NoDup (id <$> ms) → x ∈ ms → y ∈ ms → id x = id y → x = y.
Proof.
  induction ms as [|m ms IH]; intros Hnd Hx Hy Hid; [by apply elem_of_nil in Hx|].
  simpl in Hnd. apply NoDup_cons in Hnd as [Hm Hnd].
  apply elem_of_cons in Hx as [->|Hx], Hy as [->|Hy]; [done| | |by apply IH].
  - destruct Hm. rewrite Hid. apply list_elem_of_fmap. by exists y.
  - destruct Hm. rewrite <- Hid. apply list_elem_of_fmap. by exists x.
Qed.

Lemma filter_unique (ms : list ClusterModel) m :
  NoDup (id <$> ms) → m ∈ ms → filter (λ x, id x = id m) ms = [m].
Proof.
  induction ms as [|m0 ms IH]; intros Hnd Hin; [by apply elem_of_nil in Hin|].
  simpl in Hnd. apply NoDup_cons in Hnd as [Hm0 Hnd].
  apply elem_of_cons in Hin as [->|Hin].
  - rewrite filter_cons_True; [|done]. f_equal. apply filter_none.
    intros x Hx Hid. apply Hm0. rewrite <- Hid. apply list_elem_of_fmap. by exists x.
  - rewrite filter_cons_False; [by apply IH|].
    intros Hid. apply Hm0. rewrite Hid. apply list_elem_of_fmap. by exists m.
Qed.

Lemma foldl_get_other fs current suf : ∀ acc k,
  k ∉ id <$> suf →
  JsMap.get k (foldl (fromStore_model P fs current) acc suf).2 = JsMap.get k acc.2.
Proof.
  induction suf as [|m suf IH]; intros acc k Hk; [done|].
  simpl in Hk. apply not_elem_of_cons in Hk as [Hne Hk].
  simpl. rewrite IH; [|done]. destruct acc as [h new]. unfold fromStore_model.
  destruct (JsMap.get (id m) current); simpl; by rewrite JsMapFacts.get_set_ne.
Qed.

Lemma loop_app fs current h pre suf :
  loop P fs current h (pre ++ suf)
    = foldl (fromStore_model P fs current) (loop P fs current h pre) suf.
Proof. unfold loop. by rewrite foldl_app. Qed.

Lemma loop_order fs current h ms :
  NoDup (id <$> ms) → JsMap.keys (loop P fs current h ms).2 = id <$> ms.
Proof.
  induction ms as [|m ms IH] using rev_ind; [done|].
  rewrite fmap_app. intros Hnd. apply NoDup_app in Hnd as (Hnd & Hdis & _).
  rewrite loop_snoc. specialize (IH Hnd).
  assert (Hfresh : id m ∉ JsMap.keys (loop P fs current h ms).2).
  { rewrite IH. intros Hin. apply (Hdis _ Hin). simpl. apply list_elem_of_here. }
  destruct (loop P fs current h ms) as [h' new]. unfold fromStore_model. simpl in *.
  destruct (JsMap.get (id m) current); simpl;
    (rewrite JsMapFacts.set_absent; [|done]); unfold JsMap.keys in *;
    by rewrite fmap_app, IH.
Qed.

(** The value the loop enters for the model [m] after the models [pre]. *)
Lemma loop_snoc_entry fs current h pre m :
  ∃ r, (loop P fs current h (pre ++ [m])).2
         = JsMap.set (id m) r (loop P fs current h pre).2
       ∧ (JsMap.get (id m) current = Some r
          ∨ (JsMap.get (id m) current = None ∧ (length h ≤ r)%nat)).
Proof.
  rewrite loop_snoc. pose proof (loop_length P fs current h pre) as Hlen.
  destruct (loop P fs current h pre) as [h' new]. unfold fromStore_model. simpl in *.
  destruct (JsMap.get (id m) current) as [r|]; simpl; eexists; split; eauto.
Qed.

Lemma second_pass fs current h ms :
  NoDup (JsMap.keys current) → keyed_by_id h current → NoDup (id <$> ms) →
  ∀ suf pre, ms = pre ++ suf →
    foldl (fromStore_model P fs (loop P fs current h ms).2)
      ((loop P fs current h ms).1, (loop P fs current h pre).2) suf
    = loop P fs current h ms.
Proof.
  intros Hcur Hkey Hnd. induction suf as [|m suf IH]; intros pre Hms.
  - simpl. rewrite app_nil_r in Hms. subst pre. by destruct (loop P fs current h ms).
  - assert (Hms' : ms = (pre ++ [m]) ++ suf) by by rewrite <- app_assoc.
    assert (Hin : m ∈ ms).
    { rewrite Hms. apply elem_of_app. right. apply list_elem_of_here. }
    assert (Hlater : id m ∉ id <$> suf).
    { rewrite Hms, !fmap_app in Hnd. apply NoDup_app in Hnd as (_ & _ & Hnd).
      simpl in Hnd. by apply NoDup_cons in Hnd as [? _]. }
    destruct (loop_snoc_entry fs current h pre m) as (r & Hset & Hr).
    assert (Hget : JsMap.get (id m) (loop P fs current h ms).2 = Some r).
    { rewrite Hms' at 1. rewrite loop_app, foldl_get_other; [|done].
      rewrite Hset. apply JsMapFacts.get_set_eq. }
    simpl. rewrite Hget. rewrite <- Hset.
    assert (Hfix : ∃ c, (loop P fs current h ms).1 !! r = Some c ∧ updateModel m c = c).
    { destruct Hr as [Hr|[Hr Hge]].
      - destruct (Hkey (id m) r) as (c0 & Hc0 & _); [by apply JsMapFacts.get_Some_elem|].
        exists (updateModel m c0). split; [|apply updateModel_idem].
        rewrite loop_objects; [|by eapply lookup_lt_Some].
        rewrite (updates_by_id h current (id m)); [|done..].
        rewrite filter_unique; [|done..]. by rewrite Hc0.
      - destruct (loop_fresh P fs current h ms Hkey (id m) r) as (m' & Hm' & Hid & Hobj);
          [by apply JsMapFacts.get_Some_elem|done|].
        exists (reloaded P fs m). split; [|apply updateModel_own].
        rewrite Hobj. f_equal. f_equal. by apply (id_unique ms). }
    destruct Hfix as (c & Hc & Hupd).
    rewrite (alter_fixed _ _ r c); [|done..]. by apply IH.
Qed.
End reload_twice.

(** X17. Reloading the same snapshot a second time changes nothing but the
    removed clusters: for a snapshot without repeated identifiers the
    registry entries, the cluster objects and the active identifier are
    those of the first reload, and the removed clusters are empty. *)
Theorem fromStore_twice (P : Platform) (data : ClusterStoreModel) (w : World) :
  registry_wf w →
  NoDup (id <$> default [] (sm_clusters data)) →
  fromStore P data (fromStore P data w) = with_removedClusters [] (fromStore P data w).
Proof.
  intros [Hcur Hkey] Hnd.
  set (ms := default [] (sm_clusters data)) in *.
  set (w1 := fromStore P data w).
  assert (Ho : objects w1 = (loop P (disk w) (clusters w) (objects w) ms).1).
  { unfold w1. by rewrite fromStore_unfold. }
  assert (Hc : clusters w1 = (loop P (disk w) (clusters w) (objects w) ms).2).
  { unfold w1. by rewrite fromStore_unfold. }
  assert (Hd : disk w1 = disk w).
  { unfold w1. by rewrite fromStore_unfold. }
  assert (Hact : activeCluster w1 =
    match (k ← sm_activeCluster data; r ← JsMap.get k (clusters w1); objects w1 !! r) with
    | Some c => if enabled c then sm_activeCluster data else None
    | None => None
    end).
  { unfold w1. by rewrite fromStore_unfold. }
  assert (Hloop : foldl (fromStore_model P (disk w1) (clusters w1)) (objects w1, []) ms
                  = (objects w1, clusters w1)).
  { pose proof (second_pass P (disk w) (clusters w) (objects w) ms Hcur Hkey Hnd ms []
                  eq_refl) as Hsp.
    change (loop P (disk w) (clusters w) (objects w) []).2
      with (@nil (string * nat)) in Hsp.
    rewrite Hd, Ho, Hc, Hsp. by destruct (loop P (disk w) (clusters w) (objects w) ms). }
  rewrite (fromStore_unfold P data w1). cbv zeta. fold ms.
  rewrite Hloop. simpl fst. simpl snd. rewrite <- Hact.
  rewrite removed_none; [done| |done].
  rewrite Ho, Hc. by apply loop_keyed_new.
Qed.

Lemma fromStore_twice_witness :
  let data := {| sm_activeCluster := Some "c1";
                 sm_clusters := Some [Scenario.prod; Scenario.broken] |} in
  registry_wf Scenario.running
  ∧ NoDup (id <$> default [] (sm_clusters data))
  ∧ removedClusters (fromStore Scenario.P data Scenario.running) = [("c2", 1%nat)]
  ∧ removedClusters (fromStore Scenario.P data (fromStore Scenario.P data Scenario.running)) = []
  ∧ clusters (fromStore Scenario.P data (fromStore Scenario.P data Scenario.running))
      = [("c1", 0%nat); ("c3", 2%nat)].
Proof.
  intros data.
  assert (Hnd : NoDup (id <$> default [] (sm_clusters data))).
  { compute_done. }
  rewrite (fromStore_twice Scenario.P data Scenario.running ScenarioFacts.running_wf Hnd).
  split_and!; [exact ScenarioFacts.running_wf|exact Hnd|reflexivity..].
Defined.

Section snapshot_of_reload.
Variable P : Platform.

Lemma snapshot_of_fresh (h : list Cluster) (new : list (string * nat)) : ∀ ms,
  NoDup (id <$> ms) → JsMap.keys new = id <$> ms →
  (∀ k r, (k, r) ∈ new → ∃ m, m ∈ ms ∧ id m = k ∧ (model <$> h !! r) = Some m) →
  Cluster_toJSON <$> omap (λ r, h !! r) (JsMap.values new) = ms.
Proof.
  induction new as [|[k r] new IH]; intros ms Hnd Hkeys Hall.
  - symmetry in Hkeys. by apply fmap_nil_inv in Hkeys as ->.
  - destruct ms as [|m0 ms]; [done|].
    unfold JsMap.keys in Hkeys. simpl in Hkeys. injection Hkeys as Hk Hkeys.
    simpl in Hnd. apply NoDup_cons in Hnd as [Hm0 Hnd].
    destruct (Hall k r) as (m & Hm & Hid & Hobj); [apply list_elem_of_here|].
    assert (m = m0) as ->.
    { apply (id_unique (m0 :: ms)); [by apply NoDup_cons|done|apply list_elem_of_here|].
      congruence. }
    change (JsMap.values ((k, r) :: new)) with (r :: JsMap.values new). simpl omap.
    destruct (h !! r) as [c|]; [|done]. injection Hobj as Hc. simpl.
    unfold Cluster_toJSON at 1. rewrite Hc. f_equal.
    apply IH; [done|done|].
    intros k' r' Hin. destruct (Hall k' r') as (m & Hm' & Hid' & Hobj');
      [by apply list_elem_of_further|].
    exists m. split_and!; [|done|done].
    apply elem_of_cons in Hm' as [->|Hm']; [|done].
    destruct Hm0. rewrite Hid'. unfold JsMap.keys in Hkeys. rewrite <- Hkeys.
    apply list_elem_of_fmap. by exists (k', r').
Qed.
End snapshot_of_reload.

(** X18. A snapshot without repeated identifiers, reloaded into a registry
    that holds none of its clusters (as at start), and serialised again
    gives back its cluster records, and an active identifier that is the
    snapshot's or none. *)
Theorem fromStore_toJSON_records (P : Platform) (data : ClusterStoreModel) (w : World) :
  registry_wf w →
  NoDup (id <$> default [] (sm_clusters data)) →
  (∀ m, m ∈ default [] (sm_clusters data) → getById (id m) w = None) →
  sm_clusters (toJSON (fromStore P data w)) = Some (default [] (sm_clusters data))
  ∧ (sm_activeCluster (toJSON (fromStore P data w)) = sm_activeCluster data
     ∨ sm_activeCluster (toJSON (fromStore P data w)) = None).
Proof.
  intros [Hcur Hkey] Hnd Hnew. set (ms := default [] (sm_clusters data)) in *. split.
  - unfold toJSON, clustersList, deref. simpl. f_equal.
    rewrite fromStore_unfold. cbv zeta. simpl. fold ms.
    fold (loop P (disk w) (clusters w) (objects w) ms).
    apply snapshot_of_fresh; [done|by apply loop_order|].
    intros k r Hin.
    assert (Hk : k ∈ id <$> ms).
    { rewrite <- (loop_order P (disk w) (clusters w) (objects w) ms Hnd).
      unfold JsMap.keys. apply list_elem_of_fmap. by exists (k, r). }
    assert (Hge : (length (objects w) ≤ r)%nat).
    { destruct (decide (length (objects w) ≤ r)%nat) as [|Hlt]; [done|].
      destruct (loop_keyed_new P (disk w) (clusters w) (objects w) ms Hkey) as [_ Hold].
      apply list_elem_of_fmap in Hk as (m & -> & Hm).
      specialize (Hnew m Hm). unfold getById in Hnew.
      apply JsMapFacts.get_None in Hnew. destruct Hnew.
      unfold JsMap.keys. apply list_elem_of_fmap. exists (id m, r). split; [done|].
      apply Hold; [done|lia]. }
    destruct (loop_fresh P (disk w) (clusters w) (objects w) ms Hkey k r Hin Hge)
      as (m & Hm & Hid & Hobj).
    exists m. split_and!; [done..|]. rewrite Hobj. simpl. by rewrite reloaded_model.
  - unfold toJSON. simpl.
    destruct (activeCluster (fromStore P data w)) as [a|] eqn:Ha; [|by right].
    left. by apply fromStore_active_Some in Ha as [-> _].
Qed.

Lemma fromStore_toJSON_records_witness :
  let data := {| sm_activeCluster := Some "c3";
                 sm_clusters := Some [Scenario.prod; Scenario.broken] |} in
  registry_wf Scenario.installed
  ∧ sm_clusters (toJSON (fromStore Scenario.P data Scenario.installed))
      = Some [Scenario.prod; Scenario.broken]
  ∧ sm_activeCluster (toJSON (fromStore Scenario.P data Scenario.installed)) = None.
Proof.
  intros data.
  destruct (fromStore_toJSON_records Scenario.P data Scenario.installed
              ScenarioFacts.installed_wf) as [Hrec _].
  { compute_done. }
  { intros m _. reflexivity. }
  split_and!; [exact ScenarioFacts.installed_wf|exact Hrec|reflexivity].
Defined.

(** ** Lookups and lists of the registry *)

(** X19. The cluster added from a model is the one [getById] finds under
    the model's identifier afterwards; the entries of the other identifiers
    and the cluster objects that existed are as they were. *)
Theorem addCluster_lookup (P : Platform) (m : ClusterModel) (w : World) :
  getById (id m) (addCluster P (inl m) w).2 = Some (addCluster P (inl m) w).1
  ∧ (model <$> objects (addCluster P (inl m) w).2 !! (addCluster P (inl m) w).1) = Some m
  ∧ (∀ k, k ≠ id m → getById k (addCluster P (inl m) w).2 = getById k w)
  ∧ (∀ r c, objects w !! r = Some c → objects (addCluster P (inl m) w).2 !! r = Some c).
Proof.
  unfold getById. rewrite addCluster_model. simpl. split_and!.
  - apply JsMapFacts.get_set_eq.
  - rewrite list_lookup_middle; [|done]. simpl. by rewrite added_model.
  - intros k Hne. by apply JsMapFacts.get_set_ne.
  - intros r c Hc. rewrite lookup_app_l; [done|by eapply lookup_lt_Some].
Qed.

Lemma hasClusters_iff_known (w : World) :
  hasClusters w = true ↔ ∃ k r, getById k w = Some r.
Proof.
  unfold hasClusters, getById, JsMap.size. rewrite bool_decide_eq_true. split.
  - destruct (clusters w) as [|[k r] rest]; simpl; [lia|].
    intros _. exists k, r. by rewrite decide_True.
  - intros (k & r & Hk). destruct (clusters w); [done|]. simpl. lia.
Qed.

(** X20. Embedding a second kubeconfig for the same identifier replaces the
    first: the disk is the one the second embedding alone gives, and the
    path is the same. *)
Theorem embedCustomKubeConfig_overwrites (P : Platform) (k : ClusterId)
    (first second : KubeConfig P + string) (fs : FileSystem) :
  embedCustomKubeConfig P k second (embedCustomKubeConfig P k first fs).2
    = embedCustomKubeConfig P k second fs
  ∧ (embedCustomKubeConfig P k second fs).1 = (embedCustomKubeConfig P k first fs).1.
Proof.
  unfold embedCustomKubeConfig, saveToAppFiles. simpl. by rewrite insert_insert_eq.
Qed.

(** X21. In a well-formed registry [enabledClustersList] holds exactly the
    clusters found under an identifier that are enabled. *)
Theorem enabledClustersList_spec (w : World) (c : Cluster) :
  registry_wf w →
  c ∈ enabledClustersList w ↔
    ∃ k r, getById k w = Some r ∧ objects w !! r = Some c ∧ enabled c = true.
Proof.
  intros [Hnd Hkey]. unfold enabledClustersList, clustersList, deref, getById, JsMap.values.
  rewrite list_elem_of_filter, list_elem_of_omap. split.
  - intros [He (r & Hr & Hc)]. apply list_elem_of_fmap in Hr as ([k r'] & -> & Hin).
    exists k, r'. split_and!; [by apply JsMapFacts.elem_get|done|done].
  - intros (k & r & Hk & Hc & He). split; [done|]. exists r. split; [|done].
    apply list_elem_of_fmap. exists (k, r). split; [done|].
    by apply JsMapFacts.get_Some_elem.
Qed.

Lemma enabledClustersList_spec_witness :
  registry_wf Scenario.stale
  ∧ length (enabledClustersList Scenario.stale) = 1%nat
  ∧ ∃ c, c ∈ enabledClustersList Scenario.stale ∧ id (model c) = "c2".
Proof.
  split_and!; [exact ScenarioFacts.stale_wf|reflexivity|].
  eexists. split.
  - apply (enabledClustersList_spec Scenario.stale _ ScenarioFacts.stale_wf).
    exists "c2", 1%nat. split_and!; reflexivity.
  - reflexivity.
Defined.

(** ** C1: the active identifier *)
Section active_enabled_facts.
Variable P : Platform.

Lemma active_enabled_removeById k w :
  active_enabled w → active_enabled (removeById P k w).2.
Proof.
  intros Hw. destruct (JsMap.get k (clusters w)) as [r|] eqn:Hr.
  - rewrite (removeById_known P k r); [|done]. intros a Ha. simpl in Ha.
    destruct (decide (activeCluster w = Some k)) as [|Hne]; [done|].
    destruct (Hw a Ha) as (ra & c & Hra & Hc & He). exists ra, c. simpl.
    split_and!; [|done..]. rewrite JsMapFacts.get_delete_ne; [done|]. intros ->. congruence.
  - rewrite removeById_unknown; [|done]. exact Hw.
Qed.

Lemma active_enabled_onState k st w :
  active_enabled w → active_enabled (registerIpcListener_onState k st w).
Proof.
  intros Hw a Ha. unfold registerIpcListener_onState in *.
  destruct (getById k w) as [r0|]; [|by apply Hw].
  destruct (Hw a Ha) as (r & c & Hr & Hc & He).
  destruct (decide (r0 = r)) as [->|Hne].
  - exists r, (setState st c). simpl. split_and!; [done| |done].
    by rewrite list_lookup_alter_eq, Hc.
  - exists r, c. simpl. split_and!; [done| |done].
    by rewrite list_lookup_alter_ne.
Qed.

Lemma active_enabled_addCluster_model m w :
  active_enabled w →
  activeCluster w ≠ Some (id m) ∨ truthy (ownerRef m) = false →
  active_enabled (addCluster P (inl m) w).2.
Proof.
  intros Hw Hcond a Ha. rewrite addCluster_model in *. simpl in Ha.
  destruct (decide (a = id m)) as [->|Hne].
  - destruct Hcond as [Hn|Hu]; [congruence|].
    exists (length (objects w)), (added P (disk w) m). simpl. split_and!.
    + apply JsMapFacts.get_set_eq.
    + by apply (list_lookup_middle _ []).
    + by rewrite added_enabled, Hu.
  - destruct (Hw a Ha) as (r & c & Hr & Hc & He). exists r, c. simpl. split_and!; [| |done].
    + by rewrite JsMapFacts.get_set_ne.
    + by apply lookup_app_l_Some.
Qed.

Lemma active_enabled_addCluster_instance r c w :
  active_enabled w →
  objects w !! r = Some c →
  activeCluster w ≠ Some (id (model c)) ∨ truthy (ownerRef (model c)) = false
    ∨ enabled c = true →
  active_enabled (addCluster P (inr r) w).2.
Proof.
  intros Hw Hc Hcond a Ha. rewrite (addCluster_instance P r c) in *; [|done..]. simpl in Ha.
  set (c' := if negb (isManaged c) then set_enabled true c else c).
  assert (Hlt : (r < length (objects w))%nat) by by eapply lookup_lt_Some.
  assert (Hmono : enabled c = true → enabled c' = true).
  { unfold c'. by destruct (negb (isManaged c)). }
  destruct (decide (a = id (model c))) as [->|Hne].
  - exists r, c'. simpl. split_and!.
    + apply JsMapFacts.get_set_eq.
    + by apply list_lookup_insert_eq.
    + destruct Hcond as [Hn|[Hu|He]]; [congruence| |by apply Hmono].
      unfold c', isManaged. by rewrite Hu.
  - destruct (Hw a Ha) as (ra & ca & Hra & Hca & He).
    destruct (decide (ra = r)) as [->|Hr].
    + exists r, c'. simpl. split_and!.
      * by rewrite JsMapFacts.get_set_ne.
      * by apply list_lookup_insert_eq.
      * apply Hmono. congruence.
    + exists ra, ca. simpl. split_and!; [| |done].
      * by rewrite JsMapFacts.get_set_ne.
      * by rewrite list_lookup_insert_ne.
Qed.

Lemma addCluster_managed_under_active m w :
  activeCluster w = Some (id m) → truthy (ownerRef m) = true →
  ¬ active_enabled (addCluster P (inl m) w).2.
Proof.
  intros Ha Hm Hw. rewrite addCluster_model in Hw.
  destruct (Hw (id m) Ha) as (r & c & Hr & Hc & He). simpl in *.
  rewrite JsMapFacts.get_set_eq in Hr. injection Hr as <-.
  rewrite (list_lookup_middle _ [] _ (length (objects w))) in Hc; [|done].
  injection Hc as <-. by rewrite added_enabled, Hm in He.
Qed.
End active_enabled_facts.

(** C1. After [setActive(id)] the active identifier is [id] when the cluster
    under [id] exists and is enabled, and none otherwise. The identifier
    that [setActive] leaves, and the one [fromStore] leaves, is none or
    references an enabled cluster; [removeById], an incoming cluster state
    and a change of the disk keep that, and so does [addCluster] unless it
    puts a disabled cluster under the active identifier, which adding an
    owner-managed model under the active identifier does. *)
Theorem setActive_enabled_or_none (P : Platform) (w : World) (k : ClusterId) :
  (enabledCluster w k → activeCluster (setActive (Some k) w) = Some k)
  ∧ (¬ enabledCluster w k → activeCluster (setActive (Some k) w) = None)
  ∧ activeCluster (setActive None w) = None
  ∧ (∀ clusterId, active_enabled (setActive clusterId w))
  ∧ (∀ data, active_enabled (fromStore P data w))
  ∧ (active_enabled w →
       (∀ k', active_enabled (removeById P k' w).2)
       ∧ (∀ k' st, active_enabled (registerIpcListener_onState k' st w))
       ∧ (∀ fs, active_enabled (with_disk fs w))
       ∧ (∀ m, activeCluster w ≠ Some (id m) ∨ truthy (ownerRef m) = false →
            active_enabled (addCluster P (inl m) w).2)
       ∧ (∀ r c, objects w !! r = Some c →
            activeCluster w ≠ Some (id (model c))
              ∨ truthy (ownerRef (model c)) = false ∨ enabled c = true →
            active_enabled (addCluster P (inr r) w).2))
  ∧ (∀ m, activeCluster w = Some (id m) → truthy (ownerRef m) = true →
       ¬ active_enabled (addCluster P (inl m) w).2).
Proof.
  split_and!.
  - apply setActive_enabled.
  - intros Hn. destruct (activeCluster (setActive (Some k) w)) as [a|] eqn:E; [|done].
    apply setActive_Some_inv in E as [[= ->] He]. done.
  - done.
  - intros clusterId a Ha. apply setActive_Some_inv in Ha as [_ (r & c & ? & ? & ?)].
    exists r, c. done.
  - intros data a Ha. by apply fromStore_active_Some in Ha as [_ ?].
  - intros Hw. split_and!.
    + intros k'. by apply active_enabled_removeById.
    + intros k' st. by apply active_enabled_onState.
    + intros fs. exact Hw.
    + intros m. by apply active_enabled_addCluster_model.
    + intros r c. by apply active_enabled_addCluster_instance.
  - intros m. apply addCluster_managed_under_active.
Qed.

Lemma setActive_enabled_or_none_witness :
  enabledCluster Scenario.running "c2"
  ∧ activeCluster (setActive (Some "c2") Scenario.running) = Some "c2"
  ∧ ¬ enabledCluster Scenario.running "c9"
  ∧ activeCluster (setActive (Some "c9") Scenario.running) = None
  ∧ active_enabled Scenario.running
  ∧ active_enabled (removeById Scenario.P "c2" Scenario.running).2
  ∧ active_enabled (addCluster Scenario.P (inl Scenario.dev) Scenario.running).2.
Proof.
  assert (H2 : enabledCluster Scenario.running "c2").
  { eexists 1%nat, _. split_and!; reflexivity. }
  assert (H9 : ¬ enabledCluster Scenario.running "c9").
  { intros (r & c & Hr & _). vm_compute in Hr. discriminate. }
  pose proof (setActive_enabled_or_none Scenario.P Scenario.running "c2")
    as (Hset & _ & _ & _ & _ & Hkeep & _).
  pose proof (setActive_enabled_or_none Scenario.P Scenario.running "c9")
    as (_ & Hnone & _).
  destruct (Hkeep ScenarioFacts.running_active_enabled) as (Hrm & _ & _ & Hadd & _).
  split_and!.
  - exact H2.
  - exact (Hset H2).
  - exact H9.
  - exact (Hnone H9).
  - exact ScenarioFacts.running_active_enabled.
  - apply Hrm.
  - apply Hadd. left. discriminate.
Defined.

(** The active identifier does not reference an enabled cluster in every
    state the operations lead to: adding "c1", making it active and adding
    an owner-managed model under "c1" leaves "c1" active on a cluster that
    is disabled. *)
Lemma active_on_disabled_cluster :
  reachable Scenario.P Scenario.stale
  ∧ activeCluster Scenario.stale = Some "c1"
  ∧ getById "c1" Scenario.stale = Some 2%nat
  ∧ enabledOf Scenario.stale 2%nat = Some false
  ∧ ¬ enabledCluster Scenario.stale "c1"
  ∧ ¬ active_enabled Scenario.stale.
Proof.
  assert (Hn : ¬ enabledCluster Scenario.stale "c1").
  { intros (r & c & Hr & Hc & He). vm_compute in Hr. injection Hr as <-.
    vm_compute in Hc. injection Hc as <-. discriminate. }
  split_and!; [exact ScenarioFacts.stale_reachable|reflexivity..|exact Hn|].
  intros Hw. apply Hn. by apply Hw.
Qed.

(** ** C7: the round trip through a snapshot *)
Section snapshot_roundtrip.
Variable P : Platform.

Lemma snapshot_models (h : list Cluster) (m : list (string * nat)) :
  keyed_by_id h m →
  id <$> (Cluster_toJSON <$> omap (λ r, h !! r) (JsMap.values m)) = JsMap.keys m
  ∧ ∀ k r c, (k, r) ∈ m → h !! r = Some c →
      model c ∈ Cluster_toJSON <$> omap (λ r, h !! r) (JsMap.values m).
Proof.
  unfold JsMap.keys, JsMap.values. induction m as [|[k r] m IH]; intros Hkey.
  - split; [done|]. intros k r c Hin. by apply elem_of_nil in Hin.
  - destruct (Hkey k r) as (c & Hc & Hid); [apply list_elem_of_here|].
    destruct IH as [IHk IHm].
    { intros k' r' Hin. apply Hkey. by apply list_elem_of_further. }
    simpl. rewrite Hc. simpl. split.
    + change (Cluster_toJSON c) with (model c). rewrite Hid. f_equal. exact IHk.
    + intros k' r' c' Hin Hc'. apply elem_of_cons in Hin as [[= -> ->]|Hin].
      * assert (c' = c) as -> by congruence. apply list_elem_of_here.
      * apply list_elem_of_further. by eapply IHm.
Qed.

Lemma toJSON_models (w : World) :
  registry_wf w →
  id <$> default [] (sm_clusters (toJSON w)) = JsMap.keys (clusters w)
  ∧ NoDup (id <$> default [] (sm_clusters (toJSON w)))
  ∧ ∀ k r c, getById k w = Some r → objects w !! r = Some c →
      model c ∈ default [] (sm_clusters (toJSON w)) ∧ id (model c) = k.
Proof.
  intros [Hnd Hkey]. unfold toJSON, clustersList, deref, getById. simpl.
  destruct (snapshot_models (objects w) (clusters w) Hkey) as [Hk Hm].
  split_and!; [done|by rewrite Hk|]. intros k r c Hr Hc.
  apply JsMapFacts.get_Some_elem in Hr. split; [by eapply Hm|].
  destruct (Hkey k r Hr) as (c' & Hc' & Hid). congruence.
Qed.

(** Every entry of the registry reloaded from models that the registry did
    not hold is a cluster constructed from its model. *)
Lemma fromStore_fresh_entry (t : World) (ms : list ClusterModel) k r :
  registry_wf t → NoDup (id <$> ms) →
  (∀ m, m ∈ ms → getById (id m) t = None) →
  (k, r) ∈ (loop P (disk t) (clusters t) (objects t) ms).2 →
  (length (objects t) ≤ r)%nat
  ∧ ∃ m, m ∈ ms ∧ id m = k
      ∧ (loop P (disk t) (clusters t) (objects t) ms).1 !! r = Some (reloaded P (disk t) m).
Proof.
  intros [Hcur Hkey] Hnd Hnew Hin.
  assert (Hk : k ∈ id <$> ms).
  { rewrite <- (loop_order P (disk t) (clusters t) (objects t) ms Hnd).
    unfold JsMap.keys. apply list_elem_of_fmap. by exists (k, r). }
  assert (Hge : (length (objects t) ≤ r)%nat).
  { destruct (decide (length (objects t) ≤ r)%nat) as [|Hlt]; [done|].
    destruct (loop_keyed_new P (disk t) (clusters t) (objects t) ms Hkey) as [_ Hold].
    apply list_elem_of_fmap in Hk as (m & -> & Hm).
    specialize (Hnew m Hm). unfold getById in Hnew.
    apply JsMapFacts.get_None in Hnew. destruct Hnew.
    unfold JsMap.keys. apply list_elem_of_fmap. exists (id m, r). split; [done|].
    apply Hold; [done|lia]. }
  split; [done|]. by apply loop_fresh.
Qed.

Lemma fromStore_loop w data :
  clusters (fromStore P data w)
    = (loop P (disk w) (clusters w) (objects w) (default [] (sm_clusters data))).2
  ∧ objects (fromStore P data w)
    = (loop P (disk w) (clusters w) (objects w) (default [] (sm_clusters data))).1.
Proof. by rewrite fromStore_unfold. Qed.

(** The clusters of a registry reloaded from the snapshot of [w] into a
    registry [t] that holds none of the identifiers of [w]. *)
Lemma reload_of_snapshot (w t : World) :
  registry_wf w → registry_wf t →
  (∀ k, k ∈ JsMap.keys (clusters w) → getById k t = None) →
  JsMap.keys (clusters (fromStore P (toJSON w) t)) = JsMap.keys (clusters w)
  ∧ Cluster_toJSON <$> clustersList (fromStore P (toJSON w) t)
      = Cluster_toJSON <$> clustersList w
  ∧ ∀ k r c, getById k w = Some r → objects w !! r = Some c →
      ∃ r', getById k (fromStore P (toJSON w) t) = Some r'
        ∧ objects t !! r' = None
        ∧ objects (fromStore P (toJSON w) t) !! r' = Some (reloaded P (disk t) (model c)).
Proof.
  intros Hw Ht Hfresh.
  destruct (toJSON_models w Hw) as (Hids & Hnd & Hmod).
  destruct (fromStore_loop t (toJSON w)) as [Hc Ho].
  set (ms := default [] (sm_clusters (toJSON w))) in *.
  assert (Hnew : ∀ m, m ∈ ms → getById (id m) t = None).
  { intros m Hm. apply Hfresh. rewrite <- Hids. apply list_elem_of_fmap. by exists m. }
  split_and!.
  - by rewrite Hc, loop_order.
  - unfold clustersList at 1, deref. rewrite Hc, Ho.
    change (Cluster_toJSON <$> clustersList w) with ms.
    apply snapshot_of_fresh; [done|by apply loop_order|].
    intros k r Hin.
    destruct (fromStore_fresh_entry t ms k r Ht Hnd Hnew Hin) as (_ & m & Hm & Hid & Hobj).
    exists m. split_and!; [done..|]. rewrite Hobj. simpl. by rewrite reloaded_model.
  - intros k r c Hr Hobj. destruct (Hmod k r c Hr Hobj) as [Hm Hid].
    assert (Hk : k ∈ id <$> ms).
    { apply list_elem_of_fmap. by exists (model c). }
    assert (Hkt : JsMap.get k (clusters t) = None).
    { apply (Hnew (model c)) in Hm. by rewrite Hid in Hm. }
    destruct (loop_get_new P (disk t) (clusters t) (objects t) ms k Hkt Hk)
      as (r' & Hr' & Hge & _).
    destruct (fromStore_fresh_entry t ms k r' Ht Hnd Hnew) as (_ & m & Hm' & Hid' & Hobj').
    { by apply JsMapFacts.get_Some_elem. }
    assert (m = model c) as ->.
    { apply (id_unique ms); [done..|congruence]. }
    exists r'. unfold getById. rewrite Hc, Ho. split_and!; [done| |done].
    by apply lookup_ge_None.
Qed.
End snapshot_roundtrip.

(** C7. Serialising a well-formed registry and reloading the snapshot into
    it gives back the same registry entries over the same cluster objects,
    hence the same enabled clusters; the active identifier comes back when
    it was none or referenced an enabled cluster, and is none otherwise.
    Reloading the snapshot into a registry that holds none of the
    identifiers gives the same identifiers in the same order and the same
    records, over clusters constructed anew: such a cluster is enabled
    exactly when it has no owner reference and its context resolves to an
    API URL on the disk of the reload. So the enabled clusters and the
    active identifier come back as they were exactly when every cluster's
    enabled flag agreed with that rule, the active identifier under the
    same condition as before. *)
Theorem toJSON_fromStore_roundtrip (P : Platform) (w : World) :
  registry_wf w →
  let w' := fromStore P (toJSON w) w in
  (clusters w' = clusters w
   ∧ objects w' = objects w
   ∧ enabledClustersList w' = enabledClustersList w
   ∧ (∀ k, enabledCluster w' k ↔ enabledCluster w k)
   ∧ (active_enabled w → activeCluster w' = activeCluster w)
   ∧ (¬ active_enabled w → activeCluster w' = None))
  ∧ ∀ t, registry_wf t →
      (∀ k, k ∈ JsMap.keys (clusters w) → getById k t = None) →
      let t' := fromStore P (toJSON w) t in
      let resolves m := negb (truthy (ownerRef m)) && truthy (resolveApiUrl P (disk t) m) in
      JsMap.keys (clusters t') = JsMap.keys (clusters w)
      ∧ sm_clusters (toJSON t') = sm_clusters (toJSON w)
      ∧ (∀ k r c, getById k w = Some r → objects w !! r = Some c →
           ∃ r', getById k t' = Some r'
             ∧ objects t !! r' = None
             ∧ objects t' !! r' = Some (reloaded P (disk t) (model c))
             ∧ enabledOf t' r' = Some (resolves (model c)))
      ∧ (∀ k, enabledCluster t' k ↔
           ∃ r c, getById k w = Some r ∧ objects w !! r = Some c
                  ∧ resolves (model c) = true)
      ∧ (∀ a, activeCluster t' = Some a ↔ activeCluster w = Some a ∧ enabledCluster t' a)
      ∧ ((∀ k r c, getById k w = Some r → objects w !! r = Some c →
            enabled c = resolves (model c)) →
         (∀ k, enabledCluster t' k ↔ enabledCluster w k)
         ∧ (active_enabled w → activeCluster t' = activeCluster w)
         ∧ (¬ active_enabled w → activeCluster t' = None)).
Proof.
  intros Hwf. cbv zeta. split.
  { assert (Hc : clusters (fromStore P (toJSON w) w) = clusters w).
    { rewrite fromStore_unfold. cbv zeta. simpl clusters at 1.
      by rewrite fromStore_own_snapshot. }
    assert (Ho : objects (fromStore P (toJSON w) w) = objects w).
    { rewrite fromStore_unfold. cbv zeta. simpl objects at 1.
      by rewrite fromStore_own_snapshot. }
    assert (He : ∀ k, enabledCluster (fromStore P (toJSON w) w) k ↔ enabledCluster w k).
    { intros k. unfold enabledCluster. by rewrite Hc, Ho. }
    split_and!; try done.
    - unfold enabledClustersList, clustersList, deref. by rewrite Hc, Ho.
    - intros Hact. destruct (activeCluster w) as [a|] eqn:Ha.
      + apply fromStore_active_enabled; [done|]. apply He. by apply Hact.
      + rewrite fromStore_unfold. cbv zeta. simpl. by rewrite Ha.
    - intros Hstale.
      destruct (activeCluster (fromStore P (toJSON w) w)) as [a|] eqn:Ha; [|done].
      apply fromStore_active_Some in Ha as [Ha Hen]. simpl in Ha.
      destruct Hstale. intros b Hb. rewrite Ha in Hb. injection Hb as <-. by apply He. }
  intros t Ht Hfresh.
  destruct (reload_of_snapshot P w t Hwf Ht Hfresh) as (Hkeys & Hrec & Hobj).
  set (t' := fromStore P (toJSON w) t) in *.
  assert (Hen : ∀ k, enabledCluster t' k ↔
            ∃ r c, getById k w = Some r ∧ objects w !! r = Some c
              ∧ negb (truthy (ownerRef (model c)))
                  && truthy (resolveApiUrl P (disk t) (model c)) = true).
  { intros k. split.
    - intros (r' & c' & Hr' & Hc' & He).
      assert (Hk : k ∈ JsMap.keys (clusters w)).
      { rewrite <- Hkeys. by eapply get_is_key. }
      destruct (JsMap.get k (clusters w)) as [r|] eqn:Hr;
        [|by apply JsMapFacts.get_None in Hr].
      destruct (proj2 Hwf k r) as (c & Hc & _); [by apply JsMapFacts.get_Some_elem|].
      destruct (Hobj k r c Hr Hc) as (r'' & Hr'' & _ & Hc'').
      unfold getById in Hr''. assert (r'' = r') as -> by congruence.
      exists r, c. split_and!; [done..|].
      rewrite <- (reloaded_enabled P). congruence.
    - intros (r & c & Hr & Hc & He).
      destruct (Hobj k r c Hr Hc) as (r' & Hr' & _ & Hc').
      exists r', (reloaded P (disk t) (model c)). split_and!; [done..|].
      by rewrite reloaded_enabled. }
  assert (Hact : ∀ a, activeCluster t' = Some a ↔ activeCluster w = Some a ∧ enabledCluster t' a).
  { intros a. split.
    - intros Ha. by apply fromStore_active_Some in Ha.
    - intros [Ha He]. by apply fromStore_active_enabled. }
  split_and!; try done.
  - unfold toJSON. simpl. by rewrite Hrec.
  - intros k r c Hr Hc. destruct (Hobj k r c Hr Hc) as (r' & Hr' & Hnew & Hc').
    exists r'. split_and!; [done..|]. unfold enabledOf. rewrite Hc'. simpl.
    by rewrite reloaded_enabled.
  - intros Hrule.
    assert (Hsame : ∀ k, enabledCluster t' k ↔ enabledCluster w k).
    { intros k. rewrite Hen. split.
      - intros (r & c & Hr & Hc & He). exists r, c. split_and!; [done..|].
        by rewrite (Hrule k r c).
      - intros (r & c & Hr & Hc & He). exists r, c. split_and!; [done..|].
        by rewrite <- (Hrule k r c). }
    split_and!; [done| |].
    + intros Hw. destruct (activeCluster w) as [a|] eqn:Ha.
      * apply Hact. split; [done|]. apply Hsame. by apply Hw.
      * destruct (activeCluster t') as [b|] eqn:Hb; [|done].
        by destruct (proj1 (Hact b) eq_refl) as [? _].
    + intros Hstale. destruct (activeCluster t') as [b|] eqn:Hb; [|done].
      destruct (proj1 (Hact b) eq_refl) as [Hb' He]. destruct Hstale. intros a Ha.
      assert (a = b) as -> by congruence. by apply Hsame.
Qed.

(** On [Scenario.running]: the round trip in place, and the reload of its
    snapshot into the empty registry over the same disk, where "c1" (no
    owner reference, its context resolves) comes back enabled and active. *)
Lemma toJSON_fromStore_roundtrip_witness :
  registry_wf Scenario.running
  ∧ active_enabled Scenario.running
  ∧ clusters (fromStore Scenario.P (toJSON Scenario.running) Scenario.running)
      = [("c1", 0%nat); ("c2", 1%nat)]
  ∧ activeCluster (fromStore Scenario.P (toJSON Scenario.running) Scenario.running) = Some "c1"
  ∧ registry_wf Scenario.installed
  ∧ JsMap.keys (clusters (fromStore Scenario.P (toJSON Scenario.running) Scenario.installed))
      = ["c1"; "c2"]
  ∧ enabledCluster (fromStore Scenario.P (toJSON Scenario.running) Scenario.installed) "c1"
  ∧ activeCluster (fromStore Scenario.P (toJSON Scenario.running) Scenario.installed)
      = Some "c1".
Proof.
  destruct (toJSON_fromStore_roundtrip Scenario.P Scenario.running ScenarioFacts.running_wf)
    as [(Hc & _ & _ & _ & Ha & _) Hreload].
  destruct (Hreload Scenario.installed ScenarioFacts.installed_wf (λ k _, eq_refl))
    as (Hkeys & _ & _ & Hen & Hact & _).
  assert (H1 : enabledCluster
                 (fromStore Scenario.P (toJSON Scenario.running) Scenario.installed) "c1").
  { apply Hen. eexists 0%nat, _. split_and!; reflexivity. }
  split_and!.
  - exact ScenarioFacts.running_wf.
  - exact ScenarioFacts.running_active_enabled.
  - rewrite Hc. reflexivity.
  - rewrite (Ha ScenarioFacts.running_active_enabled). reflexivity.
  - exact ScenarioFacts.installed_wf.
  - rewrite Hkeys. reflexivity.
  - exact H1.
  - apply Hact. split; [reflexivity|exact H1].
Defined.

(** ** C8: embedding a pasted kubeconfig *)
Section posix_paths.

Lemma split_append sep a b :
  split sep (a +:+ String sep b) = split sep a ++ split sep b.
Proof.
  rewrite split_app. pose proof (split_nonempty sep a). by destruct (split sep a).
Qed.

Lemma intercalate_cons s s' rest :
  intercalate (s :: s' :: rest) = s +:+ String "/" (intercalate (s' :: rest)).
Proof. reflexivity. Qed.

Lemma split_intercalate base :
  base ≠ [] → Forall (free_of "/") base → split "/" (intercalate base) = base.
Proof.
  induction base as [|s rest IH]; [done|]. intros _ Hfree.
  apply Forall_cons in Hfree as [Hs Hrest]. destruct rest as [|s' rest].
  - by apply split_free.
  - rewrite intercalate_cons, split_app_free; [|done]. by rewrite IH.
Qed.

Lemma intercalate_snoc base s :
  base ≠ [] → intercalate (base ++ [s]) = intercalate base +:+ String "/" s.
Proof.
  induction base as [|x rest IH]; [done|]. intros _. destruct rest as [|y rest].
  - reflexivity.
  - change ((x :: y :: rest) ++ [s]) with (x :: y :: (rest ++ [s])).
    rewrite !intercalate_cons. change (y :: rest ++ [s]) with ((y :: rest) ++ [s]).
    rewrite IH; [|done]. by rewrite append_assoc.
Qed.

Lemma normalize_step_plain allowAboveRoot res seg :
  plain_segment seg → normalize_step allowAboveRoot res seg = res ++ [seg].
Proof.
  intros (? & ? & ? & _). unfold normalize_step. by rewrite !decide_False.
Qed.

Lemma normalize_plain allowAboveRoot segs : ∀ res,
  Forall plain_segment segs → foldl (normalize_step allowAboveRoot) res segs = res ++ segs.
Proof.
  induction segs as [|seg segs IH]; intros res Hplain; simpl.
  - by rewrite app_nil_r.
  - apply Forall_cons in Hplain as [Hseg Hsegs].
    rewrite normalize_step_plain, IH; [|done..]. by rewrite <- app_assoc.
Qed.

Lemma plain_not_absolute k : plain_segment k → is_absolute k = false.
Proof.
  intros (Hne & _ & _ & Hfree). destruct k as [|c k]; [done|]. simpl in *.
  destruct Hfree as [Hc _]. by rewrite bool_decide_eq_false.
Qed.

Lemma plain_kubeconfigs : plain_segment "kubeconfigs".
Proof. by split_and!. Qed.

Lemma prefix_append a b : String.prefix a (a +:+ b) = true.
Proof.
  induction a as [|c a IH]; [by destruct b|].
  rewrite append_cons. simpl. by destruct (Ascii.ascii_dec c c).
Qed.

Lemma append_inj a b c : a +:+ b = a +:+ c → b = c.
Proof.
  induction a as [|x a IH]; [done|]. rewrite !append_cons. intros [= H]. by apply IH.
Qed.

(** [path.resolve] of a normalised absolute directory and two names of
    directory entries is the directory followed by the names. *)
Lemma path_posix_resolve_entries cwd base a b :
  base ≠ [] → Forall plain_segment base → plain_segment a → plain_segment b →
  path_posix_resolve cwd ["/" +:+ intercalate base; a; b]
    = ("/" +:+ intercalate base) +:+ "/" +:+ a +:+ "/" +:+ b.
Proof.
  intros Hbase Hplain Ha Hb.
  assert (Hfree : Forall (free_of "/") base).
  { eapply Forall_impl; [exact Hplain|]. by intros s (_ & _ & _ & ?). }
  unfold path_posix_resolve.
  assert (Hjoin : resolve_join [cwd; "/" +:+ intercalate base; a; b]
            = (String "/" (intercalate base +:+ String "/" (a +:+ String "/" (b +:+ String "/" ""))),
               true)).
  { simpl. rewrite (decide_False (P := b = "")); [|apply Hb].
    rewrite (plain_not_absolute b Hb).
    rewrite (decide_False (P := a = "")); [|apply Ha].
    rewrite (plain_not_absolute a Ha). simpl. by norm_append. }
  rewrite Hjoin. simpl negb. unfold normalizeString. cbv iota beta.
  assert (Hsplit : split "/" (String "/" (intercalate base
              +:+ String "/" (a +:+ String "/" (b +:+ String "/" ""))))
            = "" :: (base ++ [a; b]) ++ [""]).
  { simpl split at 1. f_equal.
    rewrite split_append, split_intercalate; [|done..].
    rewrite split_app_free; [|apply Ha]. rewrite split_app_free; [|apply Hb].
    simpl. by rewrite <- app_assoc. }
  rewrite Hsplit. simpl foldl at 1. rewrite foldl_app.
  rewrite (normalize_plain false (base ++ [a; b])).
  - change (normalize_step false [] "") with (@nil string). simpl.
    change (normalize_step false (base ++ [a; b]) "") with (base ++ [a; b]).
    replace (base ++ [a; b]) with ((base ++ [a]) ++ [b]) by (by rewrite <- app_assoc).
    rewrite !intercalate_snoc.
    + by norm_append.
    + done.
    + by destruct base.
  - apply Forall_app. split; [done|]. constructor; [done|]. constructor; [done|]. constructor.
Qed.
End posix_paths.

(** C8. [embedCustomKubeConfig(id, text)] writes the text to the file at
    [path.resolve(userData, "kubeconfigs", id)], a path that depends on the
    identifier only, with mode 0o600 (read and write for the owner, no bit
    for group or others), touches no other file and returns that path. When
    paths resolve as in Node, the data directory is a normalised absolute
    path and the identifier is the name of one directory entry, that path is
    [userData/kubeconfigs/id]: it lies below the data directory, and other
    such identifiers have other files. *)
Theorem embedCustomKubeConfig_private_file (P : Platform) (k : ClusterId) (text : string)
    (fs : FileSystem) :
  let filePath := (embedCustomKubeConfig P k (inr text) fs).1 in
  let fs' := (embedCustomKubeConfig P k (inr text) fs).2 in
  (filePath = path_resolve P [userData P; "kubeconfigs"; k]
   ∧ filePath = getCustomKubeConfigPath P k
   ∧ (∀ text' fs0, (embedCustomKubeConfig P k (inr text') fs0).1 = filePath)
   ∧ (contents <$> fs' !! filePath) = Some text
   ∧ (mode <$> fs' !! filePath) = Some 384%Z
   ∧ (∀ f, fs' !! filePath = Some f →
        Z.land (mode f) 448 = 384%Z ∧ Z.land (mode f) 63 = 0%Z)
   ∧ (∀ p, p ≠ filePath → fs' !! p = fs !! p))
  ∧ ∀ cwd base,
      node_paths cwd P →
      base ≠ [] → Forall plain_segment base → userData P = "/" +:+ intercalate base →
      plain_segment k →
      filePath = userData P +:+ "/" +:+ "kubeconfigs" +:+ "/" +:+ k
      ∧ under (userData P) filePath = true
      ∧ under (userData P +:+ "/" +:+ "kubeconfigs") filePath = true
      ∧ (∀ k', plain_segment k' → k' ≠ k → getCustomKubeConfigPath P k' ≠ filePath).
Proof.
  cbv zeta. split.
  { unfold embedCustomKubeConfig, saveToAppFiles. simpl.
    rewrite lookup_insert_eq. split_and!; try done.
    - intros f [= <-]. done.
    - intros p Hp. by apply lookup_insert_ne. }
  intros cwd base Hnode Hbase Hplain Hdir Hk.
  assert (Hpath : ∀ k', plain_segment k' →
            getCustomKubeConfigPath P k' = userData P +:+ "/" +:+ "kubeconfigs" +:+ "/" +:+ k').
  { intros k' Hk'. unfold getCustomKubeConfigPath. rewrite Hnode, Hdir.
    apply path_posix_resolve_entries; [done..|apply plain_kubeconfigs|done]. }
  change (embedCustomKubeConfig P k (inr text) fs).1 with (getCustomKubeConfigPath P k).
  rewrite (Hpath k Hk). split_and!.
  - done.
  - unfold under. rewrite <- append_assoc. apply prefix_append.
  - unfold under. rewrite <- !append_assoc. apply prefix_append.
  - intros k' Hk' Hne. rewrite (Hpath k' Hk'). intros Heq. apply Hne.
    by do 4 apply append_inj in Heq.
Qed.

Lemma embedCustomKubeConfig_private_file_witness :
  node_paths "/home/me" NodeScenario.platform
  ∧ plain_segment "c1"
  ∧ (embedCustomKubeConfig NodeScenario.platform "c1" (inr "apiVersion: v1") ∅).1
      = "/home/me/.config/Lens/kubeconfigs/c1"
  ∧ under "/home/me/.config/Lens"
      (embedCustomKubeConfig NodeScenario.platform "c1" (inr "apiVersion: v1") ∅).1 = true
  ∧ getCustomKubeConfigPath NodeScenario.platform "c2"
      ≠ (embedCustomKubeConfig NodeScenario.platform "c1" (inr "apiVersion: v1") ∅).1.
Proof.
  assert (Hnode : node_paths "/home/me" NodeScenario.platform) by done.
  assert (Hplain : ∀ s, s ≠ "" → s ≠ "." → s ≠ ".." → free_of "/" s → plain_segment s)
    by done.
  assert (H1 : plain_segment "c1").
  { by apply Hplain. }
  assert (H2 : plain_segment "c2").
  { by apply Hplain. }
  assert (Hbase : Forall plain_segment ["home"; "me"; ".config"; "Lens"]).
  { by repeat constructor. }
  destruct (embedCustomKubeConfig_private_file NodeScenario.platform "c1" "apiVersion: v1" ∅)
    as [_ Hunder].
  destruct (Hunder "/home/me" ["home"; "me"; ".config"; "Lens"] Hnode ltac:(done) Hbase
              eq_refl H1) as (Hpath & Hbelow & _ & Hother).
  split_and!.
  - exact Hnode.
  - exact H1.
  - rewrite Hpath. reflexivity.
  - exact Hbelow.
  - apply Hother; [exact H2|done].
Defined.

(** The file of C8 is not below the data directory for every identifier:
    on Node's paths an absolute identifier is the path itself, and ".."
    segments in the identifier lead out of the data directory. *)
Lemma embedCustomKubeConfig_escapes_data_directory :
  userData NodeScenario.platform = "/home/me/.config/Lens"
  ∧ (embedCustomKubeConfig NodeScenario.platform "/etc/passwd" (inr "text") ∅).1 = "/etc/passwd"
  ∧ under (userData NodeScenario.platform)
      (embedCustomKubeConfig NodeScenario.platform "/etc/passwd" (inr "text") ∅).1 = false
  ∧ (contents <$> (embedCustomKubeConfig NodeScenario.platform "/etc/passwd" (inr "text") ∅).2
       !! "/etc/passwd") = Some "text"
  ∧ (embedCustomKubeConfig NodeScenario.platform "../../../.ssh/config" (inr "text") ∅).1
      = "/home/me/.ssh/config"
  ∧ under (userData NodeScenario.platform)
      (embedCustomKubeConfig NodeScenario.platform "../../../.ssh/config" (inr "text") ∅).1 = false
  ∧ (embedCustomKubeConfig NodeScenario.platform ".." (inr "text") ∅).1
      = userData NodeScenario.platform.
Proof. split_and!; reflexivity. Qed.

(** ** C10: removal when [unlink] fails *)

(** C10. [removeById] of an identifier that is present fulfils its promise
    whatever [unlink] answers, and the removal is complete: the entry of the
    identifier is deleted and every other entry is kept, the active
    identifier is reset when it was the identifier and kept otherwise, and
    the cluster objects and the removed clusters stay as they are. When the
    cluster is on its private config file, [unlink] is run on that file and
    [noop] catches its outcome: the file is gone afterwards, no other file
    changes, and when [unlink] is rejected the disk stays as it is. When the
    cluster is on another config file the disk is not touched. *)
Theorem removeById_swallows_unlink_error (P : Platform) (w : World) (k : ClusterId) (r : nat) :
  JsMap.get k (clusters w) = Some r →
  let w' := (removeById P k w).2 in
  (removeById P k w).1 = Fulfilled tt
  ∧ clusters w' = JsMap.delete k (clusters w)
  ∧ JsMap.get k (clusters w') = None
  ∧ (∀ k', k' ≠ k → JsMap.get k' (clusters w') = JsMap.get k' (clusters w))
  ∧ (activeCluster w = Some k → activeCluster w' = None)
  ∧ (activeCluster w ≠ Some k → activeCluster w' = activeCluster w)
  ∧ objects w' = objects w
  ∧ removedClusters w' = removedClusters w
  ∧ appEventBus w' = appEventBus w ++ [AppEventOf "cluster" "remove"]
  ∧ (∀ c, objects w !! r = Some c →
       kubeConfigPath (model c) = getCustomKubeConfigPath P k →
       let attempt := unlink (kubeConfigPath (model c)) (disk w) in
       (removeById P k w).1 = promise_catch attempt.1 noop
       ∧ disk w' = attempt.2
       ∧ disk w' !! getCustomKubeConfigPath P k = None
       ∧ (∀ p, p ≠ getCustomKubeConfigPath P k → disk w' !! p = disk w !! p)
       ∧ (∀ e, attempt.1 = Rejected e → disk w' = disk w))
  ∧ (∀ c, objects w !! r = Some c →
       kubeConfigPath (model c) ≠ getCustomKubeConfigPath P k → disk w' = disk w).
Proof.
  intros Hr. cbv zeta. rewrite (removeById_known P k r); [|done]. simpl.
  split_and!; try done.
  - apply JsMapFacts.get_delete_eq.
  - intros k' Hk'. by apply JsMapFacts.get_delete_ne.
  - intros Ha. by rewrite decide_True.
  - intros Ha. by rewrite decide_False.
  - intros c Hc Hp. unfold disk_after. rewrite Hc, decide_True; [|done]. rewrite Hp.
    split_and!.
    + by rewrite unlink_caught.
    + by rewrite unlink_disk.
    + apply lookup_delete_eq.
    + intros p Hp'. by apply lookup_delete_ne.
    + intros e Hu. unfold unlink in Hu.
      destruct (disk w !! getCustomKubeConfigPath P k) eqn:E; [done|].
      by apply delete_id.
  - intros c Hc Hp. unfold disk_after. by rewrite Hc, decide_False.
Qed.

(** On [Scenario.orphan] the private config file of "c1" is missing, so
    [unlink] rejects; on [Scenario.running] it is there and is deleted, and
    "c2" stays registered. *)
Lemma removeById_swallows_unlink_error_witness :
  JsMap.get "c1" (clusters Scenario.orphan) = Some 0%nat
  ∧ (unlink (getCustomKubeConfigPath Scenario.P "c1") (disk Scenario.orphan)).1 = Rejected ENOENT
  ∧ (removeById Scenario.P "c1" Scenario.orphan).1 = Fulfilled tt
  ∧ JsMap.get "c1" (clusters (removeById Scenario.P "c1" Scenario.orphan).2) = None
  ∧ disk (removeById Scenario.P "c1" Scenario.orphan).2 = disk Scenario.orphan
  ∧ JsMap.get "c1" (clusters Scenario.running) = Some 0%nat
  ∧ is_Some (disk Scenario.running !! getCustomKubeConfigPath Scenario.P "c1")
  ∧ (removeById Scenario.P "c1" Scenario.running).1 = Fulfilled tt
  ∧ disk (removeById Scenario.P "c1" Scenario.running).2
      !! getCustomKubeConfigPath Scenario.P "c1" = None
  ∧ JsMap.get "c2" (clusters (removeById Scenario.P "c1" Scenario.running).2) = Some 1%nat
  ∧ activeCluster (removeById Scenario.P "c1" Scenario.running).2 = None.
Proof.
  assert (Ho : JsMap.get "c1" (clusters Scenario.orphan) = Some 0%nat) by reflexivity.
  assert (Hr : JsMap.get "c1" (clusters Scenario.running) = Some 0%nat) by reflexivity.
  destruct (removeById_swallows_unlink_error Scenario.P Scenario.orphan "c1" 0%nat Ho)
    as (Hok & _ & Hgone & _ & _ & _ & _ & _ & _ & Hfile & _).
  destruct (removeById_swallows_unlink_error Scenario.P Scenario.running "c1" 0%nat Hr)
    as (Hok' & _ & _ & Hother & Hact & _ & _ & _ & _ & Hfile' & _).
  split_and!.
  - exact Ho.
  - reflexivity.
  - exact Hok.
  - exact Hgone.
  - refine (proj2 (proj2 (proj2 (proj2 (Hfile _ eq_refl eq_refl)))) ENOENT eq_refl).
  - exact Hr.
  - by eexists.
  - exact Hok'.
  - exact (proj1 (proj2 (proj2 (Hfile' _ eq_refl eq_refl)))).
  - rewrite Hother; [reflexivity|discriminate].
  - apply Hact. reflexivity.
Defined.
